(** * EduNotes: access control, provisioning and dashboard logic

    A shallow embedding of the parts of the repository that decide who may
    read and write what:

    - the SQL schema, the row-level-security policies and the
      [handle_new_user] trigger of the migrations
      ([create_initial_schema.sql], four revisions of it);
    - the React handlers that talk to the store ([Dashboard],
      [UserManagement], [SubjectManagement], [ContentManagement]).

    Tables are lists of rows; primary keys, unique columns and foreign keys
    are checked by the operations, not assumed by the types.  A policy is a
    record holding what its [CREATE POLICY] statement says, with its
    expressions as syntax, and one small engine gives the policies their
    meaning.

    A statement of a caller goes through two steps, as in PostgreSQL.  The
    rewriter attaches to every table the statement reads the expressions of
    the policies that apply, and does the same for the tables these
    expressions read in their sub-selects; a table whose policies come up
    while they are being attached ends the statement with error 42P17
    (infinite recursion detected in policy).  Only then are the expressions
    evaluated on the rows.  The owner of the tables is not subject to the
    policies.

    Conventions.  [text] and [uuid] values are strings, the bytes of their
    UTF-8 encoding.  The boolean columns [access] and [is_admin] are [bool]:
    every writer in the repository stores [true] or [false] in them. *)

From Stdlib Require Import List String Ascii Bool NArith Arith Lia Sorted.
Import ListNotations.
Open Scope string_scope.
Open Scope list_scope.

Definition uuid := string.
Definition text := string.
Definition timestamptz := N.

(** ** Schema *)

(** [auth.users], the table of the authentication service; the schema only
    refers to its [id] and [email]. *)
Module AuthUser.
Record t := mk { id : uuid; email : text }.
End AuthUser.

(** [public.users] *)
Module User.
Record t := mk {
  id : uuid;            (* PRIMARY KEY REFERENCES auth.users ON DELETE CASCADE *)
  email : text;         (* UNIQUE NOT NULL *)
  access : bool;        (* DEFAULT false *)
  is_admin : bool;      (* DEFAULT false *)
  created_at : timestamptz
}.
End User.

(** [public.subjects] *)
Module Subject.
Record t := mk {
  id : uuid;
  name : text;                  (* NOT NULL *)
  description : option text;
  created_at : timestamptz
}.
End Subject.

(** [public.notes] *)
Module Note.
Record t := mk {
  id : uuid;
  subject_id : uuid;    (* REFERENCES subjects(id) ON DELETE CASCADE NOT NULL *)
  title : text;
  pdf_url : text;
  created_at : timestamptz
}.
End Note.

(** [public.videos] *)
Module Video.
Record t := mk {
  id : uuid;
  subject_id : uuid;    (* REFERENCES subjects(id) ON DELETE CASCADE NOT NULL *)
  title : text;
  youtube_url : text;
  created_at : timestamptz
}.
End Video.

Record DB := mkDB {
  auth_users : list AuthUser.t;
  users : list User.t;
  subjects : list Subject.t;
  notes : list Note.t;
  videos : list Video.t
}.

Definition empty_db : DB := mkDB [] [] [] [] [].

Definition set_auth_users (db : DB) (l : list AuthUser.t) : DB :=
  mkDB l (users db) (subjects db) (notes db) (videos db).
Definition set_users (db : DB) (l : list User.t) : DB :=
  mkDB (auth_users db) l (subjects db) (notes db) (videos db).
Definition set_subjects (db : DB) (l : list Subject.t) : DB :=
  mkDB (auth_users db) (users db) l (notes db) (videos db).
Definition set_notes (db : DB) (l : list Note.t) : DB :=
  mkDB (auth_users db) (users db) (subjects db) l (videos db).
Definition set_videos (db : DB) (l : list Video.t) : DB :=
  mkDB (auth_users db) (users db) (subjects db) (notes db) l.

(** Errors a statement can end with. *)
Inductive pg_error :=
| infinite_recursion (relation : string)  (* 42P17: infinite recursion detected in policy *)
| rls_violation (table : string)          (* 42501: new row violates row-level security policy *)
| unique_violation (constraint : string)
| foreign_key_violation (constraint : string)
| no_rows_returned                        (* [.single()] on an empty result *)
| storage_error (msg : string).

Inductive result (A : Type) :=
| Ok (a : A)
| Error (e : pg_error).
Arguments Ok {A} a.
Arguments Error {A} e.

(** ** Row-level security *)

(** The tables with [ENABLE ROW LEVEL SECURITY]. *)
Inductive table := Users | Subjects | Notes | Videos.

Definition table_name (t : table) : string :=
  match t with
  | Users => "users"
  | Subjects => "subjects"
  | Notes => "notes"
  | Videos => "videos"
  end.

Definition table_eqb (a b : table) : bool :=
  match a, b with
  | Users, Users | Subjects, Subjects | Notes, Notes | Videos, Videos => true
  | _, _ => false
  end.

Definition number_of_tables : nat := 4.

Inductive role := anon | authenticated | service_role | postgres.

(** Who issues a statement.  The client library connects with the public
    key: without a session as [anon], with one as [authenticated], and
    [auth.uid()] is the identity of the session.  [Owner] is the owner of the
    tables: the SQL editor and the Table Editor of the dashboard, which are
    how the migration and step 5 of the README reach the store, and the
    functions declared [SECURITY DEFINER]. *)
Inductive caller :=
| Anon
| Authenticated (uid : uuid)
| Owner.

Definition role_of (who : caller) : role :=
  match who with
  | Anon => anon
  | Authenticated _ => authenticated
  | Owner => postgres
  end.

Definition auth_uid (who : caller) : option uuid :=
  match who with Authenticated u => Some u | _ => None end.

(** Row-level security is not applied to the owner of a table. *)
Definition bypasses_rls (who : caller) : bool :=
  match who with Owner => true | _ => false end.

Inductive command := SELECT | INSERT | UPDATE | DELETE.

Inductive policy_for := ALL | FOR (c : command).

Definition command_eqb (a b : command) : bool :=
  match a, b with
  | SELECT, SELECT | INSERT, INSERT | UPDATE, UPDATE | DELETE, DELETE => true
  | _, _ => false
  end.

Definition role_eqb (a b : role) : bool :=
  match a, b with
  | anon, anon | authenticated, authenticated
  | service_role, service_role | postgres, postgres => true
  | _, _ => false
  end.

(** The boolean columns of [users] the policies test. *)
Inductive column := col_is_admin | col_access.

Definition column_of (col : column) (r : User.t) : bool :=
  match col with
  | col_is_admin => User.is_admin r
  | col_access => User.access r
  end.

(** The expressions the policies of the migrations are written with. *)
Inductive expr :=
| e_const (b : bool)              (* [true] *)
| e_uid_is_id                     (* [auth.uid() = id] *)
| e_exists_user (col : column).   (* [EXISTS (SELECT 1 FROM users
                                             WHERE id = auth.uid() AND col = true)] *)

(** The tables the sub-selects of an expression read. *)
Definition reads (e : expr) : list table :=
  match e with
  | e_exists_user _ => [Users]
  | _ => []
  end.

(** What a [CREATE POLICY] statement declares.  [pol_to = None] is the
    default [TO PUBLIC]. *)
Record policy := mkPolicy {
  pol_name : string;
  pol_for : policy_for;
  pol_to : option role;
  pol_using : option expr;
  pol_check : option expr
}.

(** The policies in force, table by table. *)
Record catalog := mkCatalog {
  on_users : list policy;
  on_subjects : list policy;
  on_notes : list policy;
  on_videos : list policy
}.

Definition policies_of (cat : catalog) (t : table) : list policy :=
  match t with
  | Users => on_users cat
  | Subjects => on_subjects cat
  | Notes => on_notes cat
  | Videos => on_videos cat
  end.

Definition cmd_applies (f : policy_for) (c : command) : bool :=
  match f with ALL => true | FOR c' => command_eqb c' c end.

Definition role_applies (t : option role) (who : caller) : bool :=
  match t with None => true | Some r => role_eqb r (role_of who) end.

Definition applicable (c : command) (who : caller) (ps : list policy) : list policy :=
  filter (fun p => cmd_applies (pol_for p) c && role_applies (pol_to p) who) ps.

(** A policy without [USING] lets no existing row through; a policy without
    [WITH CHECK] checks new rows with its [USING] expression. *)
Definition using_of (p : policy) : expr :=
  match pol_using p with Some e => e | None => e_const false end.

Definition check_of (p : policy) : expr :=
  match pol_check p with Some e => e | None => using_of p end.

(** The expressions attached to a table for a command of a caller: the
    [USING] expressions of the [SELECT] policies for everything that reads
    rows (an [UPDATE] or [DELETE] with a [WHERE] clause, an [INSERT] that
    returns its row), the [USING] expressions of the policies of the
    command, and their [WITH CHECK] expressions for new rows. *)
Definition quals (ps : list policy) (c : command) (returning : bool) (who : caller)
  : list expr :=
  match c with
  | SELECT => map using_of (applicable SELECT who ps)
  | INSERT => map check_of (applicable INSERT who ps)
              ++ (if returning then map using_of (applicable SELECT who ps) else [])
  | UPDATE => map using_of (applicable SELECT who ps)
              ++ map using_of (applicable UPDATE who ps)
              ++ map check_of (applicable UPDATE who ps)
  | DELETE => map using_of (applicable SELECT who ps)
              ++ map using_of (applicable DELETE who ps)
  end.

Definition first_error (l : list (option pg_error)) : option pg_error :=
  fold_right (fun o rest => match o with Some e => Some e | None => rest end) None l.

(** The rewriter on a table [t] with the expressions [qs] attached to it.
    [active] are the tables whose policies are being attached.  A table that
    is among them again is the infinite recursion; otherwise the tables the
    sub-selects of [qs] read get their [SELECT] policies attached in turn,
    with [t] active.  [depth] counts the tables that are not active yet: at
    [0] all of them are, [t] included. *)
Fixpoint expand (depth : nat) (cat : catalog) (who : caller) (active : list table)
  (t : table) (qs : list expr) : option pg_error :=
  if existsb (table_eqb t) active then Some (infinite_recursion (table_name t))
  else
    match depth with
    | O => Some (infinite_recursion (table_name t))
    | S d =>
        first_error
          (map (fun t' => expand d cat who (t :: active) t'
                            (quals (policies_of cat t') SELECT false who))
               (flat_map reads qs))
    end.

(** What the rewriter answers to a command of [who] on [t]: [None] when the
    policies could be attached. *)
Definition rewrite (cat : catalog) (who : caller) (t : table) (c : command)
  (returning : bool) : option pg_error :=
  if bypasses_rls who then None
  else expand number_of_tables cat who [] t (quals (policies_of cat t) c returning who).

(** The value of an expression on the row with primary key [id].  The
    sub-select on [users] runs with the rights of the caller: it sees the
    rows the [SELECT] policies of [users] let through.  [depth] bounds the
    nesting of sub-selects, which the rewriter has found finite when an
    expression gets evaluated. *)
Fixpoint eval (depth : nat) (cat : catalog) (db : DB) (who : caller) (e : expr)
  (id : uuid) : bool :=
  match e with
  | e_const b => b
  | e_uid_is_id =>
      match auth_uid who with
      | Some u => String.eqb u id
      | None => false
      end
  | e_exists_user col =>
      match depth, auth_uid who with
      | S d, Some u =>
          existsb
            (fun r =>
               String.eqb (User.id r) u && column_of col r
               && existsb (fun q => eval d cat db who q (User.id r))
                          (map using_of (applicable SELECT who (on_users cat))))
            (users db)
      | _, _ => false
      end
  end.

(** Policies are permissive: they are combined with OR, and with row-level
    security enabled the absence of an applicable policy denies. *)
Definition passes (cat : catalog) (db : DB) (who : caller) (qs : list expr) (id : uuid)
  : bool :=
  existsb (fun q => eval number_of_tables cat db who q id) qs.

(** Whether the policies of [t] for the command [c] let the existing row
    with key [id] through, and whether they accept it as a new row. *)
Definition passes_using (cat : catalog) (t : table) (c : command) (db : DB)
  (who : caller) (id : uuid) : bool :=
  bypasses_rls who
  || passes cat db who (map using_of (applicable c who (policies_of cat t))) id.

Definition passes_check (cat : catalog) (t : table) (c : command) (db : DB)
  (who : caller) (id : uuid) : bool :=
  bypasses_rls who
  || passes cat db who (map check_of (applicable c who (policies_of cat t))) id.

(** What the policies make of a command of the caller: an error of the
    rewriter, or whether the command may act, on the existing row [old] for
    [SELECT], [UPDATE] and [DELETE] and with the new row [new] for [INSERT]
    and [UPDATE]. *)
Definition permitted (cat : catalog) (t : table) (c : command) (db : DB)
  (who : caller) (old new : uuid) : result bool :=
  match rewrite cat who t c false with
  | Some e => Error e
  | None =>
      Ok match c with
         | SELECT => passes_using cat t SELECT db who old
         | INSERT => passes_check cat t INSERT db who new
         | UPDATE => passes_using cat t SELECT db who old
                     && passes_using cat t UPDATE db who old
                     && passes_check cat t UPDATE db who new
                     && passes_using cat t SELECT db who new
         | DELETE => passes_using cat t SELECT db who old
                     && passes_using cat t DELETE db who old
         end
  end.

(** Rows a [SELECT] returns. *)
Definition rls_select {R} (cat : catalog) (t : table) (id : R -> uuid) (db : DB)
  (who : caller) (rows : list R) : result (list R) :=
  match rewrite cat who t SELECT false with
  | Some e => Error e
  | None => Ok (filter (fun r => passes_using cat t SELECT db who (id r)) rows)
  end.

(** Rows an [UPDATE] or [DELETE] with a [WHERE] clause acts on: those the
    clause selects, that the caller can read, and that the policies of the
    command let through.  The others are skipped without an error. *)
Definition rls_target {R} (cat : catalog) (t : table) (id : R -> uuid) (c : command)
  (db : DB) (who : caller) (where_ : R -> bool) (r : R) : bool :=
  where_ r && passes_using cat t SELECT db who (id r) && passes_using cat t c db who (id r).

(** [DELETE]: the rows it removes, and the rows it leaves. *)
Definition rls_delete {R} (cat : catalog) (t : table) (id : R -> uuid) (db : DB)
  (who : caller) (where_ : R -> bool) (rows : list R) : result (list R * list R) :=
  match rewrite cat who t DELETE false with
  | Some e => Error e
  | None =>
      Ok (filter (rls_target cat t id DELETE db who where_) rows,
          filter (fun r => negb (rls_target cat t id DELETE db who where_ r)) rows)
  end.

(** [UPDATE]: every target row is replaced by [set r]; a new row that fails
    the check of the [UPDATE] policies, or that the [SELECT] policies would
    hide, aborts the statement. *)
Fixpoint update_rows {R} (cat : catalog) (t : table) (id : R -> uuid) (db : DB)
  (who : caller) (where_ : R -> bool) (set : R -> R) (rows : list R)
  : result (list R) :=
  match rows with
  | [] => Ok []
  | r :: rest =>
      if rls_target cat t id UPDATE db who where_ r then
        if passes_check cat t UPDATE db who (id (set r))
           && passes_using cat t SELECT db who (id (set r)) then
          match update_rows cat t id db who where_ set rest with
          | Ok rest' => Ok (set r :: rest')
          | Error e => Error e
          end
        else Error (rls_violation (table_name t))
      else
        match update_rows cat t id db who where_ set rest with
        | Ok rest' => Ok (r :: rest')
        | Error e => Error e
        end
  end.

Definition rls_update {R} (cat : catalog) (t : table) (id : R -> uuid) (db : DB)
  (who : caller) (where_ : R -> bool) (set : R -> R) (rows : list R)
  : result (list R) :=
  match rewrite cat who t UPDATE false with
  | Some e => Error e
  | None => update_rows cat t id db who where_ set rows
  end.

(** The policy part of an [INSERT] of a row with key [id]: the rewriter,
    the [WITH CHECK] expressions, and for [INSERT ... RETURNING] the
    [SELECT] policies on the new row. *)
Definition rls_insert (cat : catalog) (t : table) (db : DB) (who : caller)
  (returning : bool) (id : uuid) : option pg_error :=
  match rewrite cat who t INSERT returning with
  | Some e => Some e
  | None =>
      if negb (passes_check cat t INSERT db who id) then Some (rls_violation (table_name t))
      else if returning && negb (passes_using cat t SELECT db who id)
      then Some (rls_violation (table_name t))
      else None
  end.

(** ** The policies of the migration *)

Definition policies_users : list policy :=
  [ mkPolicy "Users can read own data" (FOR SELECT) None (Some e_uid_is_id) None;
    mkPolicy "Users can update own data" (FOR UPDATE) None (Some e_uid_is_id) None;
    mkPolicy "Admins can read all users" (FOR SELECT) None
      (Some (e_exists_user col_is_admin)) None;
    mkPolicy "Admins can update all users" (FOR UPDATE) None
      (Some (e_exists_user col_is_admin)) None ].

Definition policies_subjects : list policy :=
  [ mkPolicy "Authenticated users can read subjects" (FOR SELECT) (Some authenticated)
      (Some (e_const true)) None;
    mkPolicy "Admins can manage subjects" ALL None
      (Some (e_exists_user col_is_admin)) None ].

Definition policies_notes : list policy :=
  [ mkPolicy "Users with access can read notes" (FOR SELECT) None
      (Some (e_exists_user col_access)) None;
    mkPolicy "Admins can manage notes" ALL None
      (Some (e_exists_user col_is_admin)) None ].

Definition policies_videos : list policy :=
  [ mkPolicy "Users with access can read videos" (FOR SELECT) None
      (Some (e_exists_user col_access)) None;
    mkPolicy "Admins can manage videos" ALL None
      (Some (e_exists_user col_is_admin)) None ].

(** The later revision of the migration names the role in every policy
    ([TO authenticated]) and lets the service role insert into [users]. *)
Module Later.

Definition policies_users : list policy :=
  [ mkPolicy "Users can read own data" (FOR SELECT) (Some authenticated)
      (Some e_uid_is_id) None;
    mkPolicy "Users can update own data" (FOR UPDATE) (Some authenticated)
      (Some e_uid_is_id) None;
    mkPolicy "Admins can read all users" (FOR SELECT) (Some authenticated)
      (Some (e_exists_user col_is_admin)) None;
    mkPolicy "Admins can update all users" (FOR UPDATE) (Some authenticated)
      (Some (e_exists_user col_is_admin)) None;
    mkPolicy "Enable insert for service role" (FOR INSERT) (Some service_role)
      None (Some (e_const true)) ].

Definition policies_subjects : list policy :=
  [ mkPolicy "Authenticated users can read subjects" (FOR SELECT) (Some authenticated)
      (Some (e_const true)) None;
    mkPolicy "Admins can manage subjects" ALL (Some authenticated)
      (Some (e_exists_user col_is_admin)) None ].

Definition policies_notes : list policy :=
  [ mkPolicy "Users with access can read notes" (FOR SELECT) (Some authenticated)
      (Some (e_exists_user col_access)) None;
    mkPolicy "Admins can manage notes" ALL (Some authenticated)
      (Some (e_exists_user col_is_admin)) None ].

Definition policies_videos : list policy :=
  [ mkPolicy "Users with access can read videos" (FOR SELECT) (Some authenticated)
      (Some (e_exists_user col_access)) None;
    mkPolicy "Admins can manage videos" ALL (Some authenticated)
      (Some (e_exists_user col_is_admin)) None ].

End Later.

Definition first_migration : catalog :=
  mkCatalog policies_users policies_subjects policies_notes policies_videos.

Definition later_migration : catalog :=
  mkCatalog Later.policies_users Later.policies_subjects Later.policies_notes
            Later.policies_videos.

(** The policies that test [is_admin] in a sub-select on [users]: "Admins
    can read all users", "Admins can update all users" and the three
    "Admins can manage ..." policies. *)
Definition tests_is_admin (p : policy) : bool :=
  match pol_using p with
  | Some (e_exists_user col_is_admin) => true
  | _ => false
  end.

(** A catalog without them: what the other policies do on their own. *)
Definition without_admin_policies (cat : catalog) : catalog :=
  mkCatalog (filter (fun p => negb (tests_is_admin p)) (on_users cat))
            (filter (fun p => negb (tests_is_admin p)) (on_subjects cat))
            (filter (fun p => negb (tests_is_admin p)) (on_notes cat))
            (filter (fun p => negb (tests_is_admin p)) (on_videos cat)).

(** What of a policy does not depend on the role it is declared for. *)
Definition body (p : policy) : string * policy_for * option expr * option expr :=
  (pol_name p, pol_for p, pol_using p, pol_check p).
(** ** Statements

    The requests the client library sends, as the store executes them for a
    caller under the policies of the first migration.  Values the store
    makes up itself ([gen_random_uuid()], [now()]) arrive as part of the new
    row.  A statement that ends with an error leaves the store as it was. *)

(** [ORDER BY]: SQL leaves the order of rows with the same key open; here
    they stay in the order of the table. *)
Fixpoint insert_sorted {A} (le : A -> A -> bool) (x : A) (l : list A) : list A :=
  match l with
  | [] => [x]
  | y :: rest => if le x y then x :: l else y :: insert_sorted le x rest
  end.

Definition order_by {A} (le : A -> A -> bool) (l : list A) : list A :=
  fold_right (insert_sorted le) [] l.

(** [.order('created_at', { ascending: false })] *)
Definition newest_first {A} (created_at : A -> timestamptz) (l : list A) : list A :=
  order_by (fun a b => N.leb (created_at b) (created_at a)) l.

(** [.order('name')]; [le a b] is [a <= b] in the collation of the
    database. *)
Definition by_name (le : text -> text -> bool) (l : list Subject.t) : list Subject.t :=
  order_by (fun a b => le (Subject.name a) (Subject.name b)) l.

(** [from('users').select('*').order('created_at', { ascending: false })] *)
Definition select_users (who : caller) (db : DB) : result (list User.t) :=
  match rls_select first_migration Users User.id db who (users db) with
  | Ok rows => Ok (newest_first User.created_at rows)
  | Error e => Error e
  end.

(** [from('subjects').select('*').order('name')] *)
Definition select_subjects (le : text -> text -> bool) (who : caller) (db : DB)
  : result (list Subject.t) :=
  match rls_select first_migration Subjects Subject.id db who (subjects db) with
  | Ok rows => Ok (by_name le rows)
  | Error e => Error e
  end.

(** The embedded resource of [select('*, subjects(name)')]: the name of the
    referenced subject among the subjects the caller can read. *)
Definition embed_subject (readable : list Subject.t) (sid : uuid) : option text :=
  option_map Subject.name (find (fun s => String.eqb (Subject.id s) sid) readable).

(** [from('notes').select('*, subjects(name)').order('created_at', { ascending: false })]:
    one statement that reads [notes] and [subjects]. *)
Definition select_notes (who : caller) (db : DB) : result (list (Note.t * option text)) :=
  match rls_select first_migration Notes Note.id db who (notes db),
        rls_select first_migration Subjects Subject.id db who (subjects db) with
  | Ok rows, Ok readable =>
      Ok (map (fun n => (n, embed_subject readable (Note.subject_id n)))
              (newest_first Note.created_at rows))
  | Error e, _ => Error e
  | _, Error e => Error e
  end.

Definition select_videos (who : caller) (db : DB) : result (list (Video.t * option text)) :=
  match rls_select first_migration Videos Video.id db who (videos db),
        rls_select first_migration Subjects Subject.id db who (subjects db) with
  | Ok rows, Ok readable =>
      Ok (map (fun v => (v, embed_subject readable (Video.subject_id v)))
              (newest_first Video.created_at rows))
  | Error e, _ => Error e
  | _, Error e => Error e
  end.

Definition has_subject (db : DB) (sid : uuid) : bool :=
  existsb (fun s => String.eqb (Subject.id s) sid) (subjects db).

(** [insert(row)] on subjects, with [returning] for [.select()] after it. *)
Definition insert_subject_with (returning : bool) (who : caller) (new : Subject.t) (db : DB)
  : result DB :=
  match rls_insert first_migration Subjects db who returning (Subject.id new) with
  | Some e => Error e
  | None =>
      if has_subject db (Subject.id new)
      then Error (unique_violation "subjects_pkey")
      else Ok (set_subjects db (subjects db ++ [new]))
  end.

Definition insert_subject (who : caller) (new : Subject.t) (db : DB) : result DB :=
  insert_subject_with false who new db.

(** [insert(row).select().single()]: the inserted row comes back. *)
Definition insert_subject_returning (who : caller) (new : Subject.t) (db : DB)
  : result (DB * Subject.t) :=
  match insert_subject_with true who new db with
  | Ok db' => Ok (db', new)
  | Error e => Error e
  end.

Definition insert_note (who : caller) (new : Note.t) (db : DB) : result DB :=
  match rls_insert first_migration Notes db who false (Note.id new) with
  | Some e => Error e
  | None =>
      if existsb (fun n => String.eqb (Note.id n) (Note.id new)) (notes db)
      then Error (unique_violation "notes_pkey")
      else if negb (has_subject db (Note.subject_id new))
      then Error (foreign_key_violation "notes_subject_id_fkey")
      else Ok (set_notes db (notes db ++ [new]))
  end.

Definition insert_video (who : caller) (new : Video.t) (db : DB) : result DB :=
  match rls_insert first_migration Videos db who false (Video.id new) with
  | Some e => Error e
  | None =>
      if existsb (fun v => String.eqb (Video.id v) (Video.id new)) (videos db)
      then Error (unique_violation "videos_pkey")
      else if negb (has_subject db (Video.subject_id new))
      then Error (foreign_key_violation "videos_subject_id_fkey")
      else Ok (set_videos db (videos db ++ [new]))
  end.

(** [update({ name, description }).eq('id', sid)] *)
Definition update_subject (who : caller) (sid : uuid) (name : text)
  (description : option text) (db : DB) : result DB :=
  match rls_update first_migration Subjects Subject.id db who
          (fun s => String.eqb (Subject.id s) sid)
          (fun s => Subject.mk (Subject.id s) name description (Subject.created_at s))
          (subjects db) with
  | Ok l => Ok (set_subjects db l)
  | Error e => Error e
  end.

(** [delete().eq('id', sid)] on subjects.  The rows of [notes] and [videos]
    that reference a deleted subject go with it ([ON DELETE CASCADE]); the
    referential action is not subject to the policies of those tables. *)
Definition delete_subject (who : caller) (sid : uuid) (db : DB) : result DB :=
  match rls_delete first_migration Subjects Subject.id db who
          (fun s => String.eqb (Subject.id s) sid) (subjects db) with
  | Error e => Error e
  | Ok (gone, kept) =>
      let cascades := fun ref => existsb (fun s => String.eqb (Subject.id s) ref) gone in
      Ok (mkDB (auth_users db) (users db) kept
               (filter (fun n => negb (cascades (Note.subject_id n))) (notes db))
               (filter (fun v => negb (cascades (Video.subject_id v))) (videos db)))
  end.

Definition delete_note (who : caller) (nid : uuid) (db : DB) : result DB :=
  match rls_delete first_migration Notes Note.id db who
          (fun n => String.eqb (Note.id n) nid) (notes db) with
  | Error e => Error e
  | Ok (_, kept) => Ok (set_notes db kept)
  end.

Definition delete_video (who : caller) (vid : uuid) (db : DB) : result DB :=
  match rls_delete first_migration Videos Video.id db who
          (fun v => String.eqb (Video.id v) vid) (videos db) with
  | Error e => Error e
  | Ok (_, kept) => Ok (set_videos db kept)
  end.

(** The columns an [update] on [users] assigns; [None] leaves the column. *)
Record user_patch := mkPatch {
  patch_email : option text;
  patch_access : option bool;
  patch_is_admin : option bool
}.

Definition or_else {A} (o : option A) (d : A) : A :=
  match o with Some a => a | None => d end.

Definition apply_user_patch (p : user_patch) (r : User.t) : User.t :=
  User.mk (User.id r)
          (or_else (patch_email p) (User.email r))
          (or_else (patch_access p) (User.access r))
          (or_else (patch_is_admin p) (User.is_admin r))
          (User.created_at r).

Fixpoint distinct (l : list string) : bool :=
  match l with
  | [] => true
  | x :: rest => negb (existsb (String.eqb x) rest) && distinct rest
  end.

(** [update(patch).eq('id', target)] on users; [email] stays [UNIQUE]. *)
Definition update_users (who : caller) (target : uuid) (p : user_patch) (db : DB)
  : result DB :=
  match rls_update first_migration Users User.id db who
          (fun r => String.eqb (User.id r) target) (apply_user_patch p) (users db) with
  | Ok l =>
      if distinct (map User.email l) then Ok (set_users db l)
      else Error (unique_violation "users_email_key")
  | Error e => Error e
  end.

(** ** Account provisioning *)

(** [INSERT INTO public.users (id, email, access, is_admin) VALUES ...] as
    the trigger function runs it: [SECURITY DEFINER], with the rights of the
    owner, so only the constraints of the table decide. *)
Definition insert_users_row (new : User.t) (db : DB) : result DB :=
  if existsb (fun r => String.eqb (User.id r) (User.id new)) (users db)
  then Error (unique_violation "users_pkey")
  else if existsb (fun r => String.eqb (User.email r) (User.email new)) (users db)
  then Error (unique_violation "users_email_key")
  else if negb (existsb (fun a => String.eqb (AuthUser.id a) (User.id new)) (auth_users db))
  then Error (foreign_key_violation "users_id_fkey")
  else Ok (set_users db (users db ++ [new])).

Definition new_profile (new : AuthUser.t) (now : timestamptz) : User.t :=
  User.mk (AuthUser.id new) (AuthUser.email new) false false now.

(** [handle_new_user] of the first migration: an error of the [INSERT]
    leaves the function, and with it fails the statement that fired the
    trigger. *)
Definition handle_new_user_strict (new : AuthUser.t) (now : timestamptz) (db : DB)
  : result DB :=
  insert_users_row (new_profile new now) db.

(** [handle_new_user] of the later migration, with
    [EXCEPTION WHEN others THEN RAISE LOG ...; RETURN NEW]: the function
    always returns; the second component is what went to the server log. *)
Definition handle_new_user (new : AuthUser.t) (now : timestamptz) (db : DB)
  : DB * option pg_error :=
  match insert_users_row (new_profile new now) db with
  | Ok db' => (db', None)
  | Error e => (db, Some e)
  end.

(** [on_auth_user_created]: [AFTER INSERT ON auth.users FOR EACH ROW]. *)
Definition on_auth_user_created (new : AuthUser.t) (now : timestamptz) (db : DB)
  : result (DB * option pg_error) :=
  if existsb (fun a => String.eqb (AuthUser.id a) (AuthUser.id new)) (auth_users db)
  then Error (unique_violation "auth_users_pkey")
  else Ok (handle_new_user new now (set_auth_users db (auth_users db ++ [new]))).

Definition on_auth_user_created_strict (new : AuthUser.t) (now : timestamptz) (db : DB)
  : result DB :=
  if existsb (fun a => String.eqb (AuthUser.id a) (AuthUser.id new)) (auth_users db)
  then Error (unique_violation "auth_users_pkey")
  else handle_new_user_strict new now (set_auth_users db (auth_users db ++ [new])).

(** Modelled from the spec: the sign-in path ([signInWithEmail] of
    [contexts/AuthContext.tsx] and the authentication service behind it) is
    not part of the sources.  "On first successful authentication, a new
    Account row is created automatically": the service inserts the identity
    into [auth.users] the first time it authenticates, which fires the
    trigger; an identity it already knows signs in without an insert. *)
Definition authenticate (who : AuthUser.t) (now : timestamptz) (db : DB) : DB :=
  if existsb (fun a => String.eqb (AuthUser.id a) (AuthUser.id who)) (auth_users db)
  then db
  else match on_auth_user_created who now db with
       | Ok (db', _) => db'
       | Error _ => db
       end.

(** The same sign-in on the first migration: when the trigger fails, the
    insert into [auth.users] fails with it and the authentication does not
    succeed. *)
Definition authenticate_strict (who : AuthUser.t) (now : timestamptz) (db : DB)
  : result DB :=
  if existsb (fun a => String.eqb (AuthUser.id a) (AuthUser.id who)) (auth_users db)
  then Ok db
  else on_auth_user_created_strict who now db.

(** [n] authentications of the same identity in a row. *)
Fixpoint authenticate_times (n : nat) (who : AuthUser.t) (now : timestamptz) (db : DB) : DB :=
  match n with
  | O => db
  | S k => authenticate_times k who now (authenticate who now db)
  end.

(** The account rows of an identity. *)
Definition accounts_of (ident : uuid) (db : DB) : list User.t :=
  filter (fun r => String.eqb (User.id r) ident) (users db).

(** ** Integrity constraints as predicates on a database *)

(** Every note and video references a subject that exists. *)
Definition no_orphans (db : DB) : bool :=
  forallb (fun n => has_subject db (Note.subject_id n)) (notes db)
  && forallb (fun v => has_subject db (Video.subject_id v)) (videos db).

(** [users]: [id] is the primary key, [email] is unique. *)
Definition users_keys_ok (db : DB) : bool :=
  distinct (map User.id (users db)) && distinct (map User.email (users db)).
(** ** Strings and regular expressions of the client code *)

Module JS.

(** Truthiness of a string: the empty string is falsy. *)
Definition truthy (s : string) : bool := negb (String.eqb s "").

Definition truthy_opt (o : option string) : bool :=
  match o with Some s => truthy s | None => false end.

Definition bytes (l : list nat) : string :=
  fold_right (fun n s => String (ascii_of_nat n) s) EmptyString l.

(** The characters [String.prototype.trim] strips, in UTF-8: the white space
    TAB, VT, FF, SPACE, U+00A0, U+FEFF and the other space separators
    (U+1680, U+2000 to U+200A, U+202F, U+205F, U+3000), and the line
    terminators LF, CR, U+2028 and U+2029. *)
Definition white_space : list string :=
  map bytes
      [ [9]; [10]; [11]; [12]; [13]; [32];
        [194; 160];
        [225; 154; 128];
        [226; 128; 128]; [226; 128; 129]; [226; 128; 130]; [226; 128; 131];
        [226; 128; 132]; [226; 128; 133]; [226; 128; 134]; [226; 128; 135];
        [226; 128; 136]; [226; 128; 137]; [226; 128; 138];
        [226; 128; 168]; [226; 128; 169]; [226; 128; 175];
        [226; 129; 159];
        [227; 128; 128];
        [239; 187; 191] ]%nat.

(** The rest of [s] after the prefix [p], when [p] is a prefix of [s]. *)
Fixpoint drop_prefix (p s : string) : option string :=
  match p, s with
  | EmptyString, _ => Some s
  | String a p', String b s' => if Ascii.eqb a b then drop_prefix p' s' else None
  | String _ _, EmptyString => None
  end.

(** The rest of [s] after one white-space character at its start. *)
Definition drop_white_space (s : string) : option string :=
  fold_right (fun p rest => match drop_prefix p s with Some r => Some r | None => rest end)
             None white_space.

(** [n] bounds the number of characters to strip; the length of the string
    is enough. *)
Fixpoint trim_start_upto (n : nat) (s : string) : string :=
  match n with
  | O => s
  | S k =>
      match drop_white_space s with
      | Some rest => trim_start_upto k rest
      | None => s
      end
  end.

Definition trim_start (s : string) : string := trim_start_upto (String.length s) s.

(** [s] consists of white space only. *)
Definition blank (s : string) : bool := String.eqb (trim_start s) "".

Fixpoint trim_end (s : string) : string :=
  match s with
  | EmptyString => EmptyString
  | String c s' => if blank s then EmptyString else String c (trim_end s')
  end.

Definition trim (s : string) : string := trim_end (trim_start s).

(** [s.split(sep)] for a one-character separator. *)
Fixpoint split (sep : ascii) (s : string) : list string :=
  match s with
  | EmptyString => [EmptyString]
  | String c s' =>
      if Ascii.eqb c sep then EmptyString :: split sep s'
      else match split sep s' with
           | h :: t => String c h :: t
           | [] => [String c EmptyString]
           end
  end.

(** [a.pop()] on the array [split] returns, which is never empty. *)
Definition pop (a : list string) : string := last a EmptyString.

(** *** A backtracking matcher for the regular expressions in use

    Alternatives are tried left to right, [+] is greedy and gives back
    one character at a time, and the only capture group is group 1. *)
Inductive regex :=
| Chr (c : ascii)                 (* a literal character *)
| NoneOf (cs : list ascii)        (* [^...] *)
| Seq (r1 r2 : regex)
| Alt (r1 r2 : regex)             (* (?:r1|r2) *)
| PlusNoneOf (cs : list ascii)    (* [^...]+ *)
| Group (r : regex).              (* (r) *)

Definition in_class (cs : list ascii) (c : ascii) : bool :=
  existsb (Ascii.eqb c) cs.

(** What [s] lost to become its suffix [s']. *)
Definition consumed (s s' : string) : string :=
  substring 0 (String.length s - String.length s') s.

(** A match in progress: the input left and the text of group 1. *)
Definition cont := string -> option string -> option (option string).

Fixpoint plus_none_of (cs : list ascii) (cap : option string) (k : cont) (s : string)
  : option (option string) :=
  match s with
  | EmptyString => None
  | String c s' =>
      if in_class cs c then None
      else match plus_none_of cs cap k s' with
           | Some m => Some m
           | None => k s' cap
           end
  end.

Fixpoint run (r : regex) (s : string) (cap : option string) (k : cont)
  : option (option string) :=
  match r with
  | Chr c =>
      match s with
      | String c' s' => if Ascii.eqb c c' then k s' cap else None
      | EmptyString => None
      end
  | NoneOf cs =>
      match s with
      | String c' s' => if in_class cs c' then None else k s' cap
      | EmptyString => None
      end
  | Seq r1 r2 => run r1 s cap (fun s' cap' => run r2 s' cap' k)
  | Alt r1 r2 =>
      match run r1 s cap k with
      | Some m => Some m
      | None => run r2 s cap k
      end
  | PlusNoneOf cs => plus_none_of cs cap k s
  | Group r1 => run r1 s cap (fun s' _ => k s' (Some (consumed s s')))
  end.

(** A match anchored at the start of [s]; the result is group 1. *)
Definition match_here (r : regex) (s : string) : option (option string) :=
  run r s None (fun _ cap => Some cap).

(** [s.match(r)] without the [g] flag: the match at the leftmost position
    that has one; [None] is [null], [Some g] carries [match[1]]. *)
Fixpoint match_ (r : regex) (s : string) : option (option string) :=
  match match_here r s with
  | Some m => Some m
  | None =>
      match s with
      | EmptyString => None
      | String _ s' => match_ r s'
      end
  end.

(** The regular expression of a string of literal characters. *)
Fixpoint lit (c : ascii) (s : string) : regex :=
  match s with
  | EmptyString => Chr c
  | String c' s' => Seq (Chr c) (lit c' s')
  end.

End JS.

(** ** Dashboard: the video id of a YouTube address *)

Definition LF : ascii := ascii_of_nat 10.

(** [/(?:youtube\.com\/watch\?v=|youtu\.be\/)([^&\n?#]+)/] *)
Definition youtube_regex : JS.regex :=
  JS.Seq
    (JS.Alt (JS.lit "y" "outube.com/watch?v=") (JS.lit "y" "outu.be/"))
    (JS.Group (JS.PlusNoneOf ["&"; LF; "?"; "#"]%char)).

Definition getYouTubeVideoId (url : string) : option string :=
  match JS.match_ youtube_regex url with
  | Some m => m            (* match[1] *)
  | None => None           (* null *)
  end.

(** [videoId && <img src={`https://img.youtube.com/vi/${videoId}/maxresdefault.jpg`} />]:
    the address of the thumbnail when one is rendered. *)
Definition thumbnail (youtube_url : string) : option string :=
  match getYouTubeVideoId youtube_url with
  | Some videoId =>
      if JS.truthy videoId
      then Some ("https://img.youtube.com/vi/" ++ videoId ++ "/maxresdefault.jpg")%string
      else None
  | None => None
  end.

(** *** The claimed behaviour, in the words of the specification

    "the substring that follows the first occurrence of
    'youtube.com/watch?v=' or 'youtu.be/' up to (but excluding) the first
    '&', newline, '?', or '#'", and null without a marker. *)

Definition marker_watch : string := "youtube.com/watch?v=".
Definition marker_short : string := "youtu.be/".

(** The rest of [s] after the prefix [p], when [p] is a prefix of [s]. *)
Fixpoint strip_prefix (p s : string) : option string :=
  match p, s with
  | EmptyString, _ => Some s
  | String a p', String b s' => if Ascii.eqb a b then strip_prefix p' s' else None
  | String _ _, EmptyString => None
  end.

Definition after_marker_here (s : string) : option string :=
  match strip_prefix marker_watch s with
  | Some rest => Some rest
  | None => strip_prefix marker_short s
  end.

(** What follows the first occurrence of a marker. *)
Fixpoint after_first_marker (s : string) : option string :=
  match after_marker_here s with
  | Some rest => Some rest
  | None =>
      match s with
      | EmptyString => None
      | String _ s' => after_first_marker s'
      end
  end.

Definition is_delimiter (c : ascii) : bool :=
  JS.in_class ["&"; LF; "?"; "#"]%char c.

(** The longest prefix without a delimiter. *)
Fixpoint up_to_delimiter (s : string) : string :=
  match s with
  | EmptyString => EmptyString
  | String c s' => if is_delimiter c then EmptyString else String c (up_to_delimiter s')
  end.

(** What is left of [s] from its first delimiter on. *)
Fixpoint from_delimiter (s : string) : string :=
  match s with
  | EmptyString => EmptyString
  | String c s' => if is_delimiter c then s else from_delimiter s'
  end.

Definition claimed_video_id (url : string) : option string :=
  option_map up_to_delimiter (after_first_marker url).

(** [url] contains [m]. *)
Definition contains (m url : string) : Prop :=
  exists pre post, url = (pre ++ m ++ post)%string.

(** ** The client: handlers as state transformers

    A handler runs against a [World]: the session of the client library,
    the store behind it, and what an observer of the page can see of the
    run (the requests sent, the lines written to the console).  The values
    the outside chooses during a run are fields of the world as well. *)

Inductive request :=
| ReqSelect (table : string)
| ReqInsert (table : string)
| ReqUpdate (table : string)
| ReqDelete (table : string)
| ReqUpload (path : string).

(** The asynchronous functions a handler calls without [await]. *)
Inductive async_call := call_fetchData.

Record World := mkWorld {
  w_session : caller;
  w_db : DB;
  w_requests : list request;
  w_console : list (string * pg_error);   (* console.error(message, error) *)
  w_next_id : uuid;                       (* gen_random_uuid() of the next insert *)
  w_now : timestamptz;                    (* now() *)
  w_random : string;                      (* Math.random().toString(36).substring(2) *)
  w_upload_error : option pg_error;       (* the answer of the storage to an upload *)
  w_supabaseUrl : string;
  w_started : list async_call;            (* calls started and not awaited *)
  w_collation : text -> text -> bool      (* [a <= b] in the collation of the database *)
}.

Definition with_db (w : World) (db : DB) : World :=
  mkWorld (w_session w) db (w_requests w) (w_console w) (w_next_id w) (w_now w)
          (w_random w) (w_upload_error w) (w_supabaseUrl w) (w_started w) (w_collation w).

Definition with_request (w : World) (r : request) : World :=
  mkWorld (w_session w) (w_db w) (w_requests w ++ [r]) (w_console w) (w_next_id w)
          (w_now w) (w_random w) (w_upload_error w) (w_supabaseUrl w) (w_started w) (w_collation w).

Definition with_console (w : World) (msg : string) (e : pg_error) : World :=
  mkWorld (w_session w) (w_db w) (w_requests w) (w_console w ++ [(msg, e)])
          (w_next_id w) (w_now w) (w_random w) (w_upload_error w) (w_supabaseUrl w)
          (w_started w) (w_collation w).

Definition with_started (w : World) (l : list async_call) : World :=
  mkWorld (w_session w) (w_db w) (w_requests w) (w_console w) (w_next_id w) (w_now w)
          (w_random w) (w_upload_error w) (w_supabaseUrl w) l (w_collation w).

(** How a piece of code completes: normally, or by throwing. *)
Inductive completion (A : Type) :=
| Normal (a : A)
| Thrown (e : pg_error).
Arguments Normal {A} a.
Arguments Thrown {A} e.

(** A computation over the state [S] of a component and the world. *)
Definition M (S A : Type) : Type := S -> World -> completion A * S * World.

Definition ret {S A} (a : A) : M S A := fun s w => (Normal a, s, w).

Definition bind {S A B} (m : M S A) (k : A -> M S B) : M S B :=
  fun s w =>
    match m s w with
    | (Normal a, s', w') => k a s' w'
    | (Thrown e, s', w') => (Thrown e, s', w')
    end.

Declare Scope js_scope.
Delimit Scope js_scope with js.
Notation "x <- m ;; k" := (bind m (fun x => k))
  (at level 61, m at next level, right associativity) : js_scope.
Notation "m ;; k" := (bind m (fun _ => k))
  (at level 61, right associativity) : js_scope.

Definition throw {S A} (e : pg_error) : M S A := fun s w => (Thrown e, s, w).

(** [try { body } catch (error) { handler }] *)
Definition try_catch {S} (body : M S unit) (handler : pg_error -> M S unit) : M S unit :=
  fun s w =>
    match body s w with
    | (Thrown e, s', w') => handler e s' w'
    | done => done
    end.

(** [try { body } finally { final }], around a body that may have caught. *)
Definition finally {S} (body : M S unit) (final : M S unit) : M S unit :=
  fun s w =>
    match body s w with
    | (Normal _, s', w') => final s' w'
    | (Thrown e, s', w') =>
        match final s' w' with
        | (Normal _, s'', w'') => (Thrown e, s'', w'')
        | thrown => thrown
        end
    end.

(** [setX(v)] *)
Definition setState {S} (f : S -> S) : M S unit := fun s w => (Normal tt, f s, w).

Definition console_error {S} (msg : string) (e : pg_error) : M S unit :=
  fun s w => (Normal tt, s, with_console w msg e).

(** [if (error) throw error] *)
Definition throw_if {S} (error : option pg_error) : M S unit :=
  match error with Some e => throw e | None => ret tt end.

(** A statement that changes the store; the value is the [error] field of
    the response. *)
Definition exec {S} (r : request) (stmt : caller -> DB -> result DB) : M S (option pg_error) :=
  fun s w =>
    match stmt (w_session w) (w_db w) with
    | Ok db' => (Normal None, s, with_db (with_request w r) db')
    | Error e => (Normal (Some e), s, with_request w r)
    end.

(** A query; the value is the response, [Ok data] with [error] null or
    [Error error] with [data] null. *)
Definition query {S A} (r : request) (q : caller -> DB -> result A) : M S (result A) :=
  fun s w => (Normal (q (w_session w) (w_db w)), s, with_request w r).

(** [from('subjects').select('*').order('name')] *)
Definition query_subjects {S} : M S (result (list Subject.t)) :=
  fun s w => query (ReqSelect "subjects") (select_subjects (w_collation w)) s w.

(** The rows of a response, [data || []]. *)
Definition rows {A} (response : result (list A)) : list A :=
  match response with
  | Ok data => data
  | Error _ => []
  end.

(** [if (response.data) setX(response.data)] *)
Definition if_data {S A} (response : result A) (setX : A -> M S unit) : M S unit :=
  match response with
  | Ok data => setX data
  | Error _ => ret tt
  end.

(** [f()] without [await]: the call is started, and the caller goes on. *)
Definition start {S} (c : async_call) : M S unit :=
  fun s w => (Normal tt, s, with_started w (w_started w ++ [c])).

(** ** Dashboard *)

Module Dashboard.

Record State := mkState {
  subjects : list Subject.t;
  notes : list (Note.t * option text);
  videos : list (Video.t * option text);
  loading : bool
}.

(** [useState] initial values *)
Definition initial : State := mkState [] [] [] true.

Definition setSubjects (v : list Subject.t) : M State unit :=
  setState (fun s => mkState v (notes s) (videos s) (loading s)).
Definition setNotes (v : list (Note.t * option text)) : M State unit :=
  setState (fun s => mkState (subjects s) v (videos s) (loading s)).
Definition setVideos (v : list (Video.t * option text)) : M State unit :=
  setState (fun s => mkState (subjects s) (notes s) v (loading s)).
Definition setLoading (v : bool) : M State unit :=
  setState (fun s => mkState (subjects s) (notes s) (videos s) v).

(** [user?.access] for the profile of the auth context, [null] when the
    profile is absent. *)
Definition user_access (user : option User.t) : bool :=
  match user with Some u => User.access u | None => false end.

Definition fetchContent : M State unit :=
  (finally
     (try_catch
        (subjectsResponse <- query_subjects ;;
         notesResponse <- query (ReqSelect "notes") select_notes ;;
         videosResponse <- query (ReqSelect "videos") select_videos ;;
         if_data subjectsResponse setSubjects ;;
         if_data notesResponse setNotes ;;
         if_data videosResponse setVideos)
        (fun error => console_error "Error fetching content:" error))
     (setLoading false))%js.

(** The body of [useEffect(..., [user])]; the call of [fetchContent] is the
    last thing it does. *)
Definition effect (user : option User.t) : M State unit :=
  if user_access user then fetchContent else setLoading false.

Record SubjectCard := mkCard {
  card_subject : Subject.t;
  card_notes : nat;
  card_videos : nat
}.

Definition getSubjectContent (st : State) (subjectId : uuid)
  : list (Note.t * option text) * list (Video.t * option text) :=
  (filter (fun n => String.eqb (Note.subject_id (fst n)) subjectId) (notes st),
   filter (fun v => String.eqb (Video.subject_id (fst v)) subjectId) (videos st)).

Inductive View :=
| Spinner
| AccessPending
| Content (cards : list SubjectCard)
          (recent_notes : list (Note.t * option text))
          (recent_videos : list (Video.t * option text * option string)).

Definition render (user : option User.t) (st : State) : View :=
  if loading st then Spinner
  else if negb (user_access user) then AccessPending
  else Content
         (map (fun s =>
                 let content := getSubjectContent st (Subject.id s) in
                 mkCard s (List.length (fst content)) (List.length (snd content)))
              (subjects st))
         (firstn 6 (notes st))
         (map (fun v => (v, thumbnail (Video.youtube_url (fst v)))) (firstn 4 (videos st))).

End Dashboard.

(** The state a handler closes over, and the world it runs in. *)
Definition getState {S} : M S S := fun s w => (Normal s, s, w).
Definition ask {S} : M S World := fun s w => (Normal w, s, w).

(** ** Admin panel: users *)

Module UserManagement.

Record State := mkState {
  users : list User.t;
  loading : bool
}.

Definition initial : State := mkState [] true.

Definition setUsers (v : list User.t) : M State unit :=
  setState (fun s => mkState v (loading s)).
Definition setLoading (v : bool) : M State unit :=
  setState (fun s => mkState (users s) v).

Definition fetchUsers : M State unit :=
  (finally
     (try_catch
        (response <- query (ReqSelect "users") select_users ;;
         match response with
         | Error error => throw error
         | Ok data => setUsers data
         end)
        (fun error => console_error "Error fetching users:" error))
     (setLoading false))%js.

Definition toggleUserAccess (userId : uuid) (currentAccess : bool) : M State unit :=
  (try_catch
     (st <- getState ;;
      error <- exec (ReqUpdate "users")
                 (fun who => update_users who userId
                               (mkPatch None (Some (negb currentAccess)) None)) ;;
      throw_if error ;;
      setUsers (map (fun user =>
                       if String.eqb (User.id user) userId
                       then User.mk (User.id user) (User.email user) (negb currentAccess)
                                    (User.is_admin user) (User.created_at user)
                       else user)
                    (users st)))
     (fun error => console_error "Error updating user access:" error))%js.

Definition toggleAdminStatus (userId : uuid) (currentAdmin : bool) : M State unit :=
  (try_catch
     (st <- getState ;;
      error <- exec (ReqUpdate "users")
                 (fun who => update_users who userId
                               (mkPatch None None (Some (negb currentAdmin)))) ;;
      throw_if error ;;
      setUsers (map (fun user =>
                       if String.eqb (User.id user) userId
                       then User.mk (User.id user) (User.email user) (User.access user)
                                    (negb currentAdmin) (User.created_at user)
                       else user)
                    (users st)))
     (fun error => console_error "Error updating admin status:" error))%js.

End UserManagement.

(** ** Admin panel: subjects *)

(** A statement whose response carries [data] as well. *)
Definition call {S A} (r : request) (stmt : caller -> DB -> result (DB * A))
  : M S (result A) :=
  fun s w =>
    match stmt (w_session w) (w_db w) with
    | Ok (db', a) => (Normal (Ok a), s, with_db (with_request w r) db')
    | Error e => (Normal (Error e), s, with_request w r)
    end.

Module SubjectManagement.

Record EditingSubject := mkEditing {
  id : option string;
  name : string;
  description : option string
}.

Record State := mkState {
  subjects : list Subject.t;
  loading : bool;
  editingSubject : option EditingSubject;
  isAdding : bool
}.

Definition initial : State := mkState [] true None false.

Definition setSubjects (v : list Subject.t) : M State unit :=
  setState (fun s => mkState v (loading s) (editingSubject s) (isAdding s)).
Definition setLoading (v : bool) : M State unit :=
  setState (fun s => mkState (subjects s) v (editingSubject s) (isAdding s)).
Definition setEditingSubject (v : option EditingSubject) : M State unit :=
  setState (fun s => mkState (subjects s) (loading s) v (isAdding s)).
Definition setIsAdding (v : bool) : M State unit :=
  setState (fun s => mkState (subjects s) (loading s) (editingSubject s) v).

Definition fetchSubjects : M State unit :=
  (finally
     (try_catch
        (response <- query_subjects ;;
         match response with
         | Error error => throw error
         | Ok data => setSubjects data
         end)
        (fun error => console_error "Error fetching subjects:" error))
     (setLoading false))%js.

(** [editingSubject.description?.trim() || null] *)
Definition description_or_null (d : option string) : option text :=
  match d with
  | Some s => if JS.truthy (JS.trim s) then Some (JS.trim s) else None
  | None => None
  end.

(** The guard of [handleSave]:
    [!editingSubject || !editingSubject.name.trim()] *)
Definition save_rejected (st : State) : bool :=
  match editingSubject st with
  | None => true
  | Some es => negb (JS.truthy (JS.trim (name es)))
  end.

Definition handleSave : M State unit :=
  (st <- getState ;;
   if save_rejected st then ret tt
   else
     match editingSubject st with
     | None => ret tt
     | Some es =>
         try_catch
           ((if JS.truthy_opt (id es) then
               (* Update existing subject *)
               error <- exec (ReqUpdate "subjects")
                          (fun who => update_subject who (or_else (id es) "")
                                        (JS.trim (name es))
                                        (description_or_null (description es))) ;;
               throw_if error ;;
               setSubjects
                 (map (fun subject =>
                         if String.eqb (Subject.id subject) (or_else (id es) "")
                         then Subject.mk (Subject.id subject) (name es) (description es)
                                         (Subject.created_at subject)
                         else subject)
                      (subjects st))
             else
               (* Create new subject *)
               w <- ask ;;
               response <- call (ReqInsert "subjects")
                             (fun who => insert_subject_returning who
                                (Subject.mk (w_next_id w) (JS.trim (name es))
                                            (description_or_null (description es))
                                            (w_now w))) ;;
               match response with
               | Error error => throw error
               | Ok data => setSubjects (subjects st ++ [data])
               end) ;;
            setEditingSubject None ;;
            setIsAdding false)
           (fun error => console_error "Error saving subject:" error)
     end)%js.

(** [confirmed] is the answer to the [confirm] dialog. *)
Definition handleDelete (confirmed : bool) (subjectId : uuid) : M State unit :=
  (if negb confirmed then ret tt
   else
     try_catch
       (st <- getState ;;
        error <- exec (ReqDelete "subjects") (fun who => delete_subject who subjectId) ;;
        throw_if error ;;
        setSubjects
          (filter (fun subject => negb (String.eqb (Subject.id subject) subjectId))
                  (subjects st)))
       (fun error => console_error "Error deleting subject:" error))%js.

End SubjectManagement.

(** ** Admin panel: notes and videos *)

Module File.
Record t := mk { name : string }.
End File.

Module ContentManagement.

Record NewNote := mkNewNote { title : string; file : option File.t }.
Record NewVideo := mkNewVideo { video_title : string; youtube_url : string }.

Record State := mkState {
  subjects : list Subject.t;
  notes : list (Note.t * option text);
  videos : list (Video.t * option text);
  loading : bool;
  selectedSubject : string;
  showAddNote : bool;
  showAddVideo : bool;
  uploadingFile : bool;
  newNote : NewNote;
  newVideo : NewVideo
}.

Definition initial : State :=
  mkState [] [] [] true "" false false false (mkNewNote "" None) (mkNewVideo "" "").

Definition setSubjects (v : list Subject.t) : M State unit :=
  setState (fun s => mkState v (notes s) (videos s) (loading s) (selectedSubject s)
                       (showAddNote s) (showAddVideo s) (uploadingFile s)
                       (newNote s) (newVideo s)).
Definition setNotes (v : list (Note.t * option text)) : M State unit :=
  setState (fun s => mkState (subjects s) v (videos s) (loading s) (selectedSubject s)
                       (showAddNote s) (showAddVideo s) (uploadingFile s)
                       (newNote s) (newVideo s)).
Definition setVideos (v : list (Video.t * option text)) : M State unit :=
  setState (fun s => mkState (subjects s) (notes s) v (loading s) (selectedSubject s)
                       (showAddNote s) (showAddVideo s) (uploadingFile s)
                       (newNote s) (newVideo s)).
Definition setLoading (v : bool) : M State unit :=
  setState (fun s => mkState (subjects s) (notes s) (videos s) v (selectedSubject s)
                       (showAddNote s) (showAddVideo s) (uploadingFile s)
                       (newNote s) (newVideo s)).
Definition setShowAddNote (v : bool) : M State unit :=
  setState (fun s => mkState (subjects s) (notes s) (videos s) (loading s)
                       (selectedSubject s) v (showAddVideo s) (uploadingFile s)
                       (newNote s) (newVideo s)).
Definition setShowAddVideo (v : bool) : M State unit :=
  setState (fun s => mkState (subjects s) (notes s) (videos s) (loading s)
                       (selectedSubject s) (showAddNote s) v (uploadingFile s)
                       (newNote s) (newVideo s)).
Definition setUploadingFile (v : bool) : M State unit :=
  setState (fun s => mkState (subjects s) (notes s) (videos s) (loading s)
                       (selectedSubject s) (showAddNote s) (showAddVideo s) v
                       (newNote s) (newVideo s)).
Definition setNewNote (v : NewNote) : M State unit :=
  setState (fun s => mkState (subjects s) (notes s) (videos s) (loading s)
                       (selectedSubject s) (showAddNote s) (showAddVideo s)
                       (uploadingFile s) v (newVideo s)).
Definition setNewVideo (v : NewVideo) : M State unit :=
  setState (fun s => mkState (subjects s) (notes s) (videos s) (loading s)
                       (selectedSubject s) (showAddNote s) (showAddVideo s)
                       (uploadingFile s) (newNote s) v).

Definition fetchData : M State unit :=
  (finally
     (try_catch
        (subjectsResponse <- query_subjects ;;
         notesResponse <- query (ReqSelect "notes") select_notes ;;
         videosResponse <- query (ReqSelect "videos") select_videos ;;
         if_data subjectsResponse setSubjects ;;
         if_data notesResponse setNotes ;;
         if_data videosResponse setVideos)
        (fun error => console_error "Error fetching data:" error))
     (setLoading false))%js.

(** [supabase.storage.from('pdfs').upload(filePath, file)] *)
Definition upload {S} (filePath : string) : M S (option pg_error) :=
  fun s w => (Normal (w_upload_error w), s, with_request w (ReqUpload filePath)).

(** [supabase.storage.from('pdfs').getPublicUrl(filePath).data.publicUrl] *)
Definition getPublicUrl (w : World) (filePath : string) : string :=
  (w_supabaseUrl w ++ "/storage/v1/object/public/pdfs/" ++ filePath)%string.

Definition handleFileUpload (f : File.t) : M State string :=
  (w <- ask ;;
   let fileExt := JS.pop (JS.split "." (File.name f)) in
   let fileName := (w_random w ++ "." ++ fileExt)%string in
   let filePath := ("pdfs/" ++ fileName)%string in
   uploadError <- upload filePath ;;
   throw_if uploadError ;;
   ret (getPublicUrl w filePath))%js.

(** The guard of [handleAddNote]:
    [!newNote.title || !newNote.file || !selectedSubject] *)
Definition add_note_rejected (st : State) : bool :=
  negb (JS.truthy (title (newNote st)))
  || match file (newNote st) with Some _ => false | None => true end
  || negb (JS.truthy (selectedSubject st)).

(** [fetchData()] at the end of the [try] block is not awaited: the handler
    starts it and runs on to its [finally]. *)
Definition handleAddNote : M State unit :=
  (st <- getState ;;
   if add_note_rejected st then ret tt
   else
     match file (newNote st) with
     | None => ret tt
     | Some f =>
         setUploadingFile true ;;
         finally
           (try_catch
              (pdfUrl <- handleFileUpload f ;;
               w <- ask ;;
               error <- exec (ReqInsert "notes")
                          (fun who => insert_note who
                             (Note.mk (w_next_id w) (selectedSubject st)
                                      (title (newNote st)) pdfUrl (w_now w))) ;;
               throw_if error ;;
               setNewNote (mkNewNote "" None) ;;
               setShowAddNote false ;;
               start call_fetchData)
              (fun error => console_error "Error adding note:" error))
           (setUploadingFile false)
     end)%js.

Definition add_video_rejected (st : State) : bool :=
  negb (JS.truthy (video_title (newVideo st)))
  || negb (JS.truthy (youtube_url (newVideo st)))
  || negb (JS.truthy (selectedSubject st)).

Definition handleAddVideo : M State unit :=
  (st <- getState ;;
   if add_video_rejected st then ret tt
   else
     try_catch
       (w <- ask ;;
        error <- exec (ReqInsert "videos")
                   (fun who => insert_video who
                      (Video.mk (w_next_id w) (selectedSubject st)
                                (video_title (newVideo st)) (youtube_url (newVideo st))
                                (w_now w))) ;;
        throw_if error ;;
        setNewVideo (mkNewVideo "" "") ;;
        setShowAddVideo false ;;
        start call_fetchData)
       (fun error => console_error "Error adding video:" error))%js.

Definition handleDeleteNote (confirmed : bool) (noteId : uuid) : M State unit :=
  (if negb confirmed then ret tt
   else
     try_catch
       (st <- getState ;;
        error <- exec (ReqDelete "notes") (fun who => delete_note who noteId) ;;
        throw_if error ;;
        setNotes (filter (fun n => negb (String.eqb (Note.id (fst n)) noteId)) (notes st)))
       (fun error => console_error "Error deleting note:" error))%js.

Definition handleDeleteVideo (confirmed : bool) (videoId : uuid) : M State unit :=
  (if negb confirmed then ret tt
   else
     try_catch
       (st <- getState ;;
        error <- exec (ReqDelete "videos") (fun who => delete_video who videoId) ;;
        throw_if error ;;
        setVideos (filter (fun v => negb (String.eqb (Video.id (fst v)) videoId)) (videos st)))
       (fun error => console_error "Error deleting video:" error))%js.

(** The calls a handler has started run once the handler is through. *)
Definition run_call (c : async_call) : M State unit :=
  match c with call_fetchData => fetchData end.

Fixpoint run_calls (cs : list async_call) : M State unit :=
  match cs with
  | [] => ret tt
  | c :: rest => (run_call c ;; run_calls rest)%js
  end.

Definition run_started : M State unit :=
  fun s w => run_calls (w_started w) s (with_started w []).

End ContentManagement.

(** ** What the callers of a handler can observe

    The promise of an [async] handler is rejected when the handler throws,
    with the thrown value as the reason; otherwise it is fulfilled. *)
Inductive promise :=
| Fulfilled
| Rejected (reason : pg_error).

Definition settle {S} (m : M S unit) (s : S) (w : World) : promise :=
  match m s w with
  | (Normal _, _, _) => Fulfilled
  | (Thrown e, _, _) => Rejected e
  end.


Definition state_after {S} (m : M S unit) (s : S) (w : World) : S :=
  snd (fst (m s w)).

Definition world_after {S} (m : M S unit) (s : S) (w : World) : World :=
  snd (m s w).

(** The session is one of the client library: it has no way to act as the
    owner of the tables. *)
Definition client (who : caller) : bool := negb (bypasses_rls who).

(** ** Further handlers of the client *)

(** [a.join(sep)], the inverse of [split]. *)
Fixpoint join (sep : ascii) (a : list string) : string :=
  match a with
  | [] => EmptyString
  | [s] => s
  | s :: rest => (s ++ String sep (join sep rest))%string
  end.

(** [c] occurs in [s]. *)
Fixpoint has_char (c : ascii) (s : string) : bool :=
  match s with
  | EmptyString => false
  | String c' s' => Ascii.eqb c' c || has_char c s'
  end.

(** The editing controls of [SubjectManagement]. *)
Module SubjectEditing.

Definition startEditing (subject : Subject.t) : M SubjectManagement.State unit :=
  (SubjectManagement.setEditingSubject
     (Some (SubjectManagement.mkEditing
              (Some (Subject.id subject))
              (Subject.name subject)
              (Some (or_else (Subject.description subject) "")))) ;;
   SubjectManagement.setIsAdding false)%js.

Definition startAdding : M SubjectManagement.State unit :=
  (SubjectManagement.setEditingSubject
     (Some (SubjectManagement.mkEditing None "" (Some ""))) ;;
   SubjectManagement.setIsAdding true)%js.

Definition cancelEditing : M SubjectManagement.State unit :=
  (SubjectManagement.setEditingSubject None ;;
   SubjectManagement.setIsAdding false)%js.

End SubjectEditing.

(** The path [handleFileUpload] stores a file under. *)
Definition upload_path (w : World) (f : File.t) : string :=
  ("pdfs/" ++ w_random w ++ "." ++ JS.pop (JS.split "." (File.name f)))%string.

(** [Login]: the sign-in form.  [signInWithEmail] comes from the auth
    context and is a parameter here; it may throw. *)
Module Login.

Record State := mkState {
  email : string;
  loading : bool;
  message : string
}.

Definition initial : State := mkState "" false "".

Definition setLoading (v : bool) : M State unit :=
  setState (fun s => mkState (email s) v (message s)).
Definition setMessage (v : string) : M State unit :=
  setState (fun s => mkState (email s) (loading s) v).

Definition handleSubmit (signInWithEmail : string -> M State unit) : M State unit :=
  (st <- getState ;;
   if negb (JS.truthy (email st)) then ret tt
   else
     setLoading true ;;
     setMessage "" ;;
     finally
       (try_catch
          (signInWithEmail (email st) ;;
           setMessage "Check your email for the magic link!")
          (fun error =>
             setMessage "Error sending magic link. Please try again." ;;
             console_error "Error:" error))
       (setLoading false))%js.

End Login.

(** The page of the dashboard counts, per subject, the notes it holds. *)
Definition counted_notes (v : Dashboard.View) : nat :=
  match v with
  | Dashboard.Content cards _ _ => list_sum (map Dashboard.card_notes cards)
  | _ => 0
  end.

Definition counted_videos (v : Dashboard.View) : nat :=
  match v with
  | Dashboard.Content cards _ _ => list_sum (map Dashboard.card_videos cards)
  | _ => 0
  end.

(** ** Sample data

    The rows of the migration's sample data that the examples below use, and
    three accounts: an administrator, a new account without any flag, and an
    administrator whose [access] flag is off. *)

Definition alice : User.t := User.mk "u-alice" "alice@example.com" true true 1%N.
Definition bob : User.t := User.mk "u-bob" "bob@example.com" false false 2%N.
Definition carol : User.t := User.mk "u-carol" "carol@example.com" false true 3%N.

Definition mathematics : Subject.t :=
  Subject.mk "s-math" "Mathematics"
             (Some "Advanced mathematical concepts and problem solving") 0%N.
Definition physics : Subject.t :=
  Subject.mk "s-phys" "Physics"
             (Some "Fundamental principles of physics and their applications") 0%N.

Definition calculus : Note.t :=
  Note.mk "n-calc" "s-math" "Calculus Fundamentals" "https://example.com/calculus.pdf" 0%N.
Definition quantum : Note.t :=
  Note.mk "n-quant" "s-phys" "Quantum Mechanics Introduction"
          "https://example.com/quantum.pdf" 0%N.

Definition calculus_explained : Video.t :=
  Video.mk "v-calc" "s-math" "Calculus Explained"
           "https://www.youtube.com/watch?v=WUvTyaaNkzM" 0%N.

Definition sample_db : DB :=
  mkDB [AuthUser.mk "u-alice" "alice@example.com";
        AuthUser.mk "u-bob" "bob@example.com";
        AuthUser.mk "u-carol" "carol@example.com"]
       [alice; bob; carol]
       [mathematics; physics]
       [calculus; quantum]
       [calculus_explained].

Definition sample_world (who : caller) : World :=
  mkWorld who sample_db [] [] "s-new" 10%N "k3x9q2" None "https://project.supabase.co" []
          String.leb.

(** The page of the dashboard with the sample rows on it. *)
Definition sample_page : Dashboard.State :=
  Dashboard.mkState [mathematics; physics]
                    [(calculus, Some "Mathematics"); (quantum, Some "Physics")]
                    [(calculus_explained, Some "Mathematics")]
                    false.

(** A store in which the address of [dave] stands in the [email] column of
    the row of [mallory].  No statement of the client writes it; the owner
    of the tables can, in the Table Editor that step 5 of the README uses to
    set the flags of a row. *)
Definition mallory_id : AuthUser.t := AuthUser.mk "u-mallory" "mallory@example.com".
Definition dave_id : AuthUser.t := AuthUser.mk "u-dave" "dave@example.com".

Definition db_mallory_signed_up : DB := authenticate mallory_id 1%N empty_db.

Definition db_email_taken : DB :=
  mkDB [mallory_id] [User.mk "u-mallory" "dave@example.com" false false 1%N] [] [] [].

(** * Properties *)

(** ** The rewriter on the policies of the migrations *)

(** With as many distinct tables active as there are tables, every table is
    active: the rewriter never gets to depth [0] without having answered. *)
Lemma all_tables_active (active : list table) (t : table) :
  NoDup active -> List.length active = number_of_tables ->
  existsb (table_eqb t) active = true.
Proof.
  intros Hnd Hlen.
  destruct active as [|a [|b [|c [|d [|e rest]]]]]; try discriminate.
  destruct (existsb (table_eqb t) [a; b; c; d]) eqn:Hex; [reflexivity|].
  exfalso.
  inversion Hnd as [|? ? Ha Hnd1]; subst.
  inversion Hnd1 as [|? ? Hb Hnd2]; subst.
  inversion Hnd2 as [|? ? Hc _]; subst.
  simpl in Ha, Hb, Hc.
  destruct t, a, b, c, d; simpl in Hex; try discriminate; tauto.
Qed.

Lemma table_eqb_refl (t : table) : table_eqb t t = true.
Proof. now destruct t. Qed.

Lemma not_active (t : table) (active : list table) :
  existsb (table_eqb t) active = false -> ~ In t active.
Proof.
  induction active as [|a active IH]; simpl; intros H; [tauto|].
  apply orb_false_iff in H as [Ha Hrest]. intros [->|Hin].
  - now rewrite table_eqb_refl in Ha.
  - now apply IH.
Qed.

(** The depth the rewriter starts with is enough: more of it changes no
    answer. *)
Lemma expand_more_depth (k : nat) (cat : catalog) (who : caller) :
  forall (d : nat) (active : list table) (t : table) (qs : list expr),
    NoDup active -> List.length active + d = number_of_tables ->
    expand (d + k) cat who active t qs = expand d cat who active t qs.
Proof.
  induction d as [|d IH]; intros active t qs Hnd Hlen.
  - rewrite Nat.add_0_r in Hlen.
    pose proof (all_tables_active active t Hnd Hlen) as Hact.
    destruct k; simpl; now rewrite Hact.
  - simpl. destruct (existsb (table_eqb t) active) eqn:Hact; [reflexivity|].
    f_equal. apply map_ext. intros t'. apply IH.
    + constructor; [now apply not_active | exact Hnd].
    + simpl. lia.
Qed.

Lemma first_error_none (l : list (option pg_error)) :
  first_error l = None -> forall o, In o l -> o = None.
Proof.
  induction l as [|x l IH]; simpl; [tauto|].
  destruct x as [e|]; [discriminate|].
  intros H o [<-|Hin]; [reflexivity | now apply IH].
Qed.

Lemma reads_users (q : expr) : reads q = [] \/ reads q = [Users].
Proof. destruct q; simpl; tauto. Qed.

(** When the rewriter lets a command through that reads [users] in a
    sub-select, the [SELECT] policies of [users] have no sub-select. *)
Lemma rewrite_bounds_nesting (cat : catalog) (who : caller) (t : table) (c : command)
  (r : bool) :
  bypasses_rls who = false -> rewrite cat who t c r = None ->
  In Users (flat_map reads (quals (policies_of cat t) c r who)) ->
  forall q, In q (map using_of (applicable SELECT who (on_users cat))) -> reads q = [].
Proof.
  intros Hb Hfine Hreads q Hq. unfold rewrite in Hfine. rewrite Hb in Hfine.
  simpl in Hfine.
  pose proof (first_error_none _ Hfine) as Hall.
  specialize (Hall _ (in_map _ _ _ Hreads)). cbn beta in Hall.
  cbn [expand existsb] in Hall.
  destruct (table_eqb Users t); [discriminate|]. cbn [orb] in Hall.
  destruct (reads_users q) as [E|E]; [exact E|]. exfalso.
  assert (Hin : In Users (flat_map reads (map using_of (applicable SELECT who (on_users cat))))).
  { apply in_flat_map. exists q. split; [exact Hq|]. rewrite E. now left. }
  pose proof (first_error_none _ Hall _ (in_map _ _ _ Hin)) as Hinner.
  cbn beta in Hinner. cbn [expand existsb table_eqb orb] in Hinner. discriminate.
Qed.

Lemma existsb_ext_in {A} (f g : A -> bool) (l : list A) :
  (forall x, In x l -> f x = g x) -> existsb f l = existsb g l.
Proof.
  induction l as [|x l IH]; simpl; intros H; [reflexivity|].
  rewrite (H x (or_introl eq_refl)). f_equal. apply IH. intros y Hy. apply H. now right.
Qed.

(** Then one level of sub-selects is all an expression has, and the depth
    of the evaluation does not matter. *)
Lemma eval_more_depth (cat : catalog) (db : DB) (who : caller) :
  (forall q, In q (map using_of (applicable SELECT who (on_users cat))) -> reads q = []) ->
  forall d e id, eval (S d) cat db who e id = eval 1 cat db who e id.
Proof.
  intros Hflat d e id. destruct e as [b| |col]; try reflexivity.
  destruct who as [|uid|]; try reflexivity.
  cbn [eval auth_uid]. apply existsb_ext_in. intros r _. f_equal.
  apply existsb_ext_in. intros q Hq. specialize (Hflat q Hq).
  destruct q; [destruct d; reflexivity | destruct d; reflexivity | discriminate].
Qed.

(** Two levels decide: the first sub-select leads to [users], the second
    one is on [users] again, or there is none. *)
Lemma two_levels_decide (d : nat) (who : caller) (t : table) (c : command) (r : bool) :
  (expand (2 + d) first_migration who [] t (quals (policies_of first_migration t) c r who)
   = expand number_of_tables first_migration who [] t
       (quals (policies_of first_migration t) c r who))
  /\ (expand (2 + d) later_migration who [] t (quals (policies_of later_migration t) c r who)
      = expand number_of_tables later_migration who [] t
          (quals (policies_of later_migration t) c r who)).
Proof. destruct who, t, c, r, d; split; reflexivity. Qed.

Lemma client_cases (who : caller) :
  client who = true -> who = Anon \/ exists uid, who = Authenticated uid.
Proof. destruct who as [|uid|]; [now left | right; now exists uid | discriminate]. Qed.

(** Under the policies of the first migration the rewriter refuses every
    command of a client on the four tables, but for an [INSERT] on [users]
    that returns nothing, for which no policy exists. *)
Lemma rewrite_refused (who : caller) (t : table) (c : command) (r : bool) :
  client who = true -> (t = Users -> c = INSERT -> r = true) ->
  rewrite first_migration who t c r = Some (infinite_recursion "users").
Proof.
  intros Hc Hins. destruct who; [| |discriminate];
    destruct t, c, r; try reflexivity; now specialize (Hins eq_refl eq_refl).
Qed.

Lemma rewrite_insert_users (who : caller) :
  rewrite first_migration who Users INSERT false = None.
Proof. destruct who; reflexivity. Qed.

Lemma rewrite_owner (cat : catalog) (t : table) (c : command) (r : bool) :
  rewrite cat Owner t c r = None.
Proof. reflexivity. Qed.

(** The cause is the sub-select on [users] in the policies of [users]:
    without the policies that test [is_admin] the rewriter refuses
    nothing. *)
Lemma rewrite_without_admin_policies (who : caller) (t : table) (c : command) (r : bool) :
  rewrite (without_admin_policies first_migration) who t c r = None
  /\ rewrite (without_admin_policies later_migration) who t c r = None.
Proof. destruct who, t, c, r; split; reflexivity. Qed.

(** ** The statements of a client *)

Lemma select_users_refused (who : caller) (db : DB) :
  client who = true -> select_users who db = Error (infinite_recursion "users").
Proof. destruct who; [reflexivity | reflexivity | discriminate]. Qed.

Lemma select_subjects_refused (le : text -> text -> bool) (who : caller) (db : DB) :
  client who = true -> select_subjects le who db = Error (infinite_recursion "users").
Proof. destruct who; [reflexivity | reflexivity | discriminate]. Qed.

Lemma select_notes_refused (who : caller) (db : DB) :
  client who = true -> select_notes who db = Error (infinite_recursion "users").
Proof. destruct who; [reflexivity | reflexivity | discriminate]. Qed.

Lemma select_videos_refused (who : caller) (db : DB) :
  client who = true -> select_videos who db = Error (infinite_recursion "users").
Proof. destruct who; [reflexivity | reflexivity | discriminate]. Qed.

Lemma insert_subject_refused (who : caller) (new : Subject.t) (db : DB) :
  client who = true -> insert_subject who new db = Error (infinite_recursion "users").
Proof. destruct who; [reflexivity | reflexivity | discriminate]. Qed.


Lemma update_subject_refused (who : caller) (sid : uuid) (name : text)
  (description : option text) (db : DB) :
  client who = true ->
  update_subject who sid name description db = Error (infinite_recursion "users").
Proof. destruct who; [reflexivity | reflexivity | discriminate]. Qed.

Lemma delete_subject_refused (who : caller) (sid : uuid) (db : DB) :
  client who = true -> delete_subject who sid db = Error (infinite_recursion "users").
Proof. destruct who; [reflexivity | reflexivity | discriminate]. Qed.

Lemma insert_note_refused (who : caller) (new : Note.t) (db : DB) :
  client who = true -> insert_note who new db = Error (infinite_recursion "users").
Proof. destruct who; [reflexivity | reflexivity | discriminate]. Qed.

Lemma delete_note_refused (who : caller) (nid : uuid) (db : DB) :
  client who = true -> delete_note who nid db = Error (infinite_recursion "users").
Proof. destruct who; [reflexivity | reflexivity | discriminate]. Qed.

Lemma insert_video_refused (who : caller) (new : Video.t) (db : DB) :
  client who = true -> insert_video who new db = Error (infinite_recursion "users").
Proof. destruct who; [reflexivity | reflexivity | discriminate]. Qed.

Lemma delete_video_refused (who : caller) (vid : uuid) (db : DB) :
  client who = true -> delete_video who vid db = Error (infinite_recursion "users").
Proof. destruct who; [reflexivity | reflexivity | discriminate]. Qed.

Lemma update_users_refused (who : caller) (target : uuid) (p : user_patch) (db : DB) :
  client who = true -> update_users who target p db = Error (infinite_recursion "users").
Proof. destruct who; [reflexivity | reflexivity | discriminate]. Qed.

(** ** The order of the rows *)

Section OrderBy.

Variable A : Type.
Variable le : A -> A -> bool.
Hypothesis le_total : forall a b, le a b = true \/ le b a = true.

Lemma insert_sorted_In (x y : A) (l : list A) :
  In y (insert_sorted le x l) <-> y = x \/ In y l.
Proof.
  induction l as [|z l IH]; simpl; [intuition congruence|].
  destruct (le x z); simpl; [intuition congruence|].
  rewrite IH. intuition congruence.
Qed.

(** [ORDER BY] returns the rows it is given. *)
Lemma order_by_In (y : A) (l : list A) : In y (order_by le l) <-> In y l.
Proof.
  induction l as [|x l IH]; simpl; [tauto|].
  rewrite insert_sorted_In, IH. intuition congruence.
Qed.

Lemma insert_sorted_length (x : A) (l : list A) :
  List.length (insert_sorted le x l) = S (List.length l).
Proof.
  induction l as [|z l IH]; simpl; [reflexivity|].
  destruct (le x z); simpl; [reflexivity | now rewrite IH].
Qed.

Lemma order_by_length (l : list A) : List.length (order_by le l) = List.length l.
Proof.
  induction l as [|x l IH]; simpl; [reflexivity|].
  now rewrite insert_sorted_length, IH.
Qed.

Lemma insert_sorted_hd (a x : A) (l : list A) :
  HdRel (fun a b => le a b = true) a l -> le a x = true ->
  HdRel (fun a b => le a b = true) a (insert_sorted le x l).
Proof.
  intros Hhd Hax. destruct l as [|z l]; simpl; [now constructor|].
  destruct (le x z); constructor; [exact Hax | now inversion Hhd].
Qed.

Lemma insert_sorted_sorted (x : A) (l : list A) :
  Sorted (fun a b => le a b = true) l ->
  Sorted (fun a b => le a b = true) (insert_sorted le x l).
Proof.
  induction l as [|z l IH]; simpl; intros Hs; [repeat constructor|].
  destruct (le x z) eqn:E.
  - constructor; [exact Hs | now constructor].
  - apply Sorted_inv in Hs as [Hs Hhd].
    constructor; [now apply IH|]. apply insert_sorted_hd; [exact Hhd|].
    destruct (le_total z x) as [H|H]; [exact H | congruence].
Qed.

(** ... in the order asked for. *)
Lemma order_by_sorted (l : list A) : Sorted (fun a b => le a b = true) (order_by le l).
Proof.
  induction l as [|x l IH]; simpl; [constructor|]. now apply insert_sorted_sorted.
Qed.

End OrderBy.

Example newest_account_first :
  select_users Owner sample_db = Ok [carol; bob; alice].
Proof. reflexivity. Qed.

(** ** The statements of the owner *)

Lemma filter_all {A} (f : A -> bool) (l : list A) :
  (forall x, In x l -> f x = true) -> filter f l = l.
Proof.
  induction l as [|x l IH]; simpl; intros H; [reflexivity|].
  rewrite (H x (or_introl eq_refl)). f_equal. apply IH. intros y Hy. apply H. now right.
Qed.

Lemma filter_none {A} (f : A -> bool) (l : list A) :
  (forall x, In x l -> f x = false) -> filter f l = [].
Proof.
  induction l as [|x l IH]; simpl; intros H; [reflexivity|].
  rewrite (H x (or_introl eq_refl)). apply IH. intros y Hy. apply H. now right.
Qed.

Lemma rls_target_owner {R} (cat : catalog) (t : table) (id : R -> uuid) (c : command)
  (db : DB) (where_ : R -> bool) (r : R) :
  rls_target cat t id c db Owner where_ r = where_ r.
Proof. unfold rls_target, passes_using; simpl. now rewrite !andb_true_r. Qed.

Lemma rls_select_owner {R} (cat : catalog) (t : table) (id : R -> uuid) (db : DB)
  (l : list R) :
  rls_select cat t id db Owner l = Ok l.
Proof.
  unfold rls_select; simpl. f_equal. apply filter_all. reflexivity.
Qed.

Lemma rls_delete_owner {R} (cat : catalog) (t : table) (id : R -> uuid) (db : DB)
  (where_ : R -> bool) (l : list R) :
  rls_delete cat t id db Owner where_ l
  = Ok (filter where_ l, filter (fun r => negb (where_ r)) l).
Proof.
  unfold rls_delete; simpl. f_equal. f_equal; apply filter_ext; intros r;
    now rewrite rls_target_owner.
Qed.

Lemma update_rows_owner {R} (cat : catalog) (t : table) (id : R -> uuid) (db : DB)
  (where_ : R -> bool) (set : R -> R) (l : list R) :
  update_rows cat t id db Owner where_ set l
  = Ok (map (fun r => if where_ r then set r else r) l).
Proof.
  induction l as [|r l IH]; [reflexivity|].
  cbn [update_rows map]. rewrite rls_target_owner, IH.
  now destruct (where_ r).
Qed.

Lemma rls_update_owner {R} (cat : catalog) (t : table) (id : R -> uuid) (db : DB)
  (where_ : R -> bool) (set : R -> R) (l : list R) :
  rls_update cat t id db Owner where_ set l
  = Ok (map (fun r => if where_ r then set r else r) l).
Proof. unfold rls_update; simpl. apply update_rows_owner. Qed.

Lemma delete_subject_owner (sid : uuid) (db : DB) :
  delete_subject Owner sid db
  = Ok (mkDB (auth_users db) (users db)
             (filter (fun s => negb (String.eqb (Subject.id s) sid)) (subjects db))
             (filter (fun n => negb (existsb (fun s => String.eqb (Subject.id s)
                                                          (Note.subject_id n))
                                       (filter (fun s => String.eqb (Subject.id s) sid)
                                               (subjects db))))
                     (notes db))
             (filter (fun v => negb (existsb (fun s => String.eqb (Subject.id s)
                                                          (Video.subject_id v))
                                       (filter (fun s => String.eqb (Subject.id s) sid)
                                               (subjects db))))
                     (videos db))).
Proof. unfold delete_subject. now rewrite rls_delete_owner. Qed.

Lemma update_users_owner (target : uuid) (p : user_patch) (db : DB) :
  update_users Owner target p db
  = let l := map (fun r => if String.eqb (User.id r) target then apply_user_patch p r else r)
                 (users db) in
    if distinct (map User.email l) then Ok (set_users db l)
    else Error (unique_violation "users_email_key").
Proof. unfold update_users. now rewrite rls_update_owner. Qed.

(** ** Reading subjects *)

(** C8 does not hold of the code.  For every authenticated caller the read
    of subjects ends with error 42P17 and returns no row: "Admins can manage
    subjects" is [FOR ALL], so it applies to the read as well, and its
    sub-select on [users] brings in the policies of [users], which read
    [users] themselves. *)
Theorem subjects_list_is_not_readable (db : DB) (uid : uuid) (le : text -> text -> bool) :
  select_subjects le (Authenticated uid) db = Error (infinite_recursion "users")
  /\ rows (select_subjects le (Authenticated uid) db) = []
  /\ In (e_exists_user col_is_admin)
        (quals (policies_of first_migration Subjects) SELECT false (Authenticated uid))
  /\ In (e_exists_user col_is_admin)
        (quals (policies_of first_migration Users) SELECT false (Authenticated uid)).
Proof.
  repeat split; try reflexivity; simpl; tauto.
Qed.

(** What the policy "Authenticated users can read subjects" does on its
    own: every authenticated caller reads every subject. *)
Lemma subjects_read_policy_alone (db : DB) (uid : uuid) (l : list Subject.t) :
  rls_select (without_admin_policies first_migration) Subjects Subject.id db
             (Authenticated uid) l = Ok l.
Proof. unfold rls_select; simpl. f_equal. now apply filter_all. Qed.

(** ** Reading notes and videos *)

Lemma fetchData_refused (st : ContentManagement.State) (w : World) :
  client (w_session w) = true ->
  ContentManagement.fetchData st w
  = (Normal tt,
     ContentManagement.mkState
       (ContentManagement.subjects st) (ContentManagement.notes st)
       (ContentManagement.videos st) false (ContentManagement.selectedSubject st)
       (ContentManagement.showAddNote st) (ContentManagement.showAddVideo st)
       (ContentManagement.uploadingFile st) (ContentManagement.newNote st)
       (ContentManagement.newVideo st),
     with_request (with_request (with_request w (ReqSelect "subjects")) (ReqSelect "notes"))
                  (ReqSelect "videos")).
Proof.
  intros Hc.
  unfold ContentManagement.fetchData, finally, try_catch, bind, query_subjects, query.
  cbn [w_session w_db w_collation with_request].
  rewrite (select_subjects_refused _ _ _ Hc), (select_notes_refused _ _ Hc),
    (select_videos_refused _ _ Hc).
  reflexivity.
Qed.

Lemma fetchContent_refused (st : Dashboard.State) (w : World) :
  client (w_session w) = true ->
  Dashboard.fetchContent st w
  = (Normal tt,
     Dashboard.mkState (Dashboard.subjects st) (Dashboard.notes st) (Dashboard.videos st) false,
     with_request (with_request (with_request w (ReqSelect "subjects")) (ReqSelect "notes"))
                  (ReqSelect "videos")).
Proof.
  intros Hc.
  unfold Dashboard.fetchContent, finally, try_catch, bind, query_subjects, query.
  cbn [w_session w_db w_collation with_request].
  rewrite (select_subjects_refused _ _ _ Hc), (select_notes_refused _ _ Hc),
    (select_videos_refused _ _ Hc).
  reflexivity.
Qed.



(** ** Writing subjects, notes and videos *)

(** C3 does not hold of the code for administrators.  Every create, update
    and delete on [subjects], [notes] and [videos] that an account with
    [is_admin = true] sends is answered with error 42P17 and changes
    nothing: "Admins can manage ..." reads [users] in a sub-select, and the
    policies of [users] read [users] again. *)
Theorem admin_writes_are_refused (db : DB) (acct : User.t) :
  In acct (users db) -> User.is_admin acct = true ->
  let who := Authenticated (User.id acct) in
  let refused := Error (infinite_recursion "users") in
  (forall new, insert_subject who new db = refused)
  /\ (forall new, insert_subject_returning who new db = Error (infinite_recursion "users"))
  /\ (forall sid name description, update_subject who sid name description db = refused)
  /\ (forall sid, delete_subject who sid db = refused)
  /\ (forall new, insert_note who new db = refused)
  /\ (forall nid, delete_note who nid db = refused)
  /\ (forall new, insert_video who new db = refused)
  /\ (forall vid, delete_video who vid db = refused).
Proof. intros _ _ who refused. repeat split. Qed.

Lemma admin_writes_are_refused_witness :
  insert_subject (Authenticated "u-alice") (Subject.mk "s-chem" "Chemistry" None 5%N) sample_db
  = Error (infinite_recursion "users")
  /\ update_subject (Authenticated "u-alice") "s-math" "Maths" None sample_db
     = Error (infinite_recursion "users")
  /\ delete_subject (Authenticated "u-alice") "s-math" sample_db
     = Error (infinite_recursion "users")
  /\ insert_note (Authenticated "u-alice")
                 (Note.mk "n-new" "s-math" "Algebra" "https://example.com/a.pdf" 5%N) sample_db
     = Error (infinite_recursion "users")
  /\ delete_video (Authenticated "u-alice") "v-calc" sample_db
     = Error (infinite_recursion "users").
Proof.
  destruct (admin_writes_are_refused sample_db alice) as (H1 & _ & H3 & H4 & H5 & _ & _ & H8).
  - simpl. tauto.
  - reflexivity.
  - split; [apply H1|]. split; [apply H3|]. split; [apply H4|].
    split; [apply H5 | apply H8].
Defined.

(** The other half of C3 holds: an account that is no administrator cannot
    write either, as no client can. *)
Lemma writes_denied_without_admin (db : DB) (who : caller) :
  client who = true ->
  (forall new, insert_subject who new db = Error (infinite_recursion "users"))
  /\ (forall sid name description,
        update_subject who sid name description db = Error (infinite_recursion "users"))
  /\ (forall sid, delete_subject who sid db = Error (infinite_recursion "users"))
  /\ (forall new, insert_note who new db = Error (infinite_recursion "users"))
  /\ (forall nid, delete_note who nid db = Error (infinite_recursion "users"))
  /\ (forall new, insert_video who new db = Error (infinite_recursion "users"))
  /\ (forall vid, delete_video who vid db = Error (infinite_recursion "users")).
Proof.
  intros Hc. repeat split; intros.
  - now apply insert_subject_refused.
  - now apply update_subject_refused.
  - now apply delete_subject_refused.
  - now apply insert_note_refused.
  - now apply delete_note_refused.
  - now apply insert_video_refused.
  - now apply delete_video_refused.
Qed.

(** ** Reading and updating accounts *)

(** C1 does not hold of the code where it lets an account read its own
    row.  The read of [users] by any account ends with error 42P17: next to
    "Users can read own data" the policy "Admins can read all users"
    applies to the statement, and it reads [users] in a sub-select.  The
    updates of the claim are refused in the same way, for administrators as
    for everybody else, so no account can raise its own flags. *)
Theorem own_row_is_not_readable (db : DB) (acct : User.t) :
  In acct (users db) ->
  let who := Authenticated (User.id acct) in
  select_users who db = Error (infinite_recursion "users")
  /\ rows (select_users who db) = []
  /\ (forall target p, update_users who target p db = Error (infinite_recursion "users")).
Proof. intros _ who. repeat split. Qed.

Lemma own_row_is_not_readable_witness :
  select_users (Authenticated "u-bob") sample_db = Error (infinite_recursion "users")
  /\ update_users (Authenticated "u-bob") "u-bob" (mkPatch None (Some true) (Some true))
                  sample_db
     = Error (infinite_recursion "users")
  /\ update_users (Authenticated "u-alice") "u-bob" (mkPatch None (Some true) None) sample_db
     = Error (infinite_recursion "users").
Proof.
  destruct (own_row_is_not_readable sample_db bob) as (H1 & _ & H3); [simpl; tauto|].
  destruct (own_row_is_not_readable sample_db alice) as (_ & _ & H3'); [simpl; tauto|].
  split; [apply H1|]. split; [apply H3 | apply H3'].
Defined.

(** What "Users can read own data" does on its own: an account reads the
    rows with its id, and no other. *)
Lemma own_row_policy_alone (db : DB) (uid : uuid) :
  rls_select (without_admin_policies first_migration) Users User.id db
             (Authenticated uid) (users db)
  = Ok (filter (fun r => String.eqb uid (User.id r)) (users db)).
Proof.
  unfold rls_select; simpl. f_equal. apply filter_ext. intros r.
  unfold passes_using, passes; simpl. now rewrite orb_false_r.
Qed.

(** ** Granting access *)

Lemma toggleUserAccess_refused (userId : uuid) (currentAccess : bool)
  (st : UserManagement.State) (w : World) :
  client (w_session w) = true ->
  UserManagement.toggleUserAccess userId currentAccess st w
  = (Normal tt, st,
     with_console (with_request w (ReqUpdate "users"))
                  "Error updating user access:" (infinite_recursion "users")).
Proof.
  intros Hc.
  unfold UserManagement.toggleUserAccess, try_catch, bind, getState, exec.
  now rewrite (update_users_refused _ _ _ _ Hc).
Qed.

Lemma toggleAdminStatus_refused (userId : uuid) (currentAdmin : bool)
  (st : UserManagement.State) (w : World) :
  client (w_session w) = true ->
  UserManagement.toggleAdminStatus userId currentAdmin st w
  = (Normal tt, st,
     with_console (with_request w (ReqUpdate "users"))
                  "Error updating admin status:" (infinite_recursion "users")).
Proof.
  intros Hc.
  unfold UserManagement.toggleAdminStatus, try_catch, bind, getState, exec.
  now rewrite (update_users_refused _ _ _ _ Hc).
Qed.

(** C6 does not hold of the code.  When an administrator grants access in
    the user list, the update is answered with error 42P17: the store is
    unchanged, the error goes to the console and the list of the page stays
    as it was.  The next query of the account for notes or videos ends with
    the same error, and it does so as well once the owner of the tables has
    set the flag (step 5 of the README). *)
Theorem grant_of_access_is_refused
  (st : UserManagement.State) (w : World) (admin target : User.t) :
  In admin (users (w_db w)) -> User.is_admin admin = true ->
  w_session w = Authenticated (User.id admin) ->
  let w' := world_after (UserManagement.toggleUserAccess (User.id target) false) st w in
  (w_db w' = w_db w
   /\ w_console w' = w_console w ++ [("Error updating user access:",
                                      infinite_recursion "users")]
   /\ state_after (UserManagement.toggleUserAccess (User.id target) false) st w = st)
  /\ (select_notes (Authenticated (User.id target)) (w_db w')
      = Error (infinite_recursion "users")
      /\ select_videos (Authenticated (User.id target)) (w_db w')
         = Error (infinite_recursion "users"))
  /\ (forall db', update_users Owner (User.id target) (mkPatch None (Some true) None) (w_db w)
                  = Ok db' ->
        select_notes (Authenticated (User.id target)) db'
        = Error (infinite_recursion "users")
        /\ select_videos (Authenticated (User.id target)) db'
           = Error (infinite_recursion "users")).
Proof.
  intros _ _ Hs w'.
  assert (Hc : client (w_session w) = true) by now rewrite Hs.
  subst w'. unfold world_after, state_after.
  rewrite (toggleUserAccess_refused _ _ st w Hc).
  repeat split.
Qed.

Lemma grant_of_access_is_refused_witness :
  let st := UserManagement.mkState [carol; bob; alice] false in
  let w := sample_world (Authenticated "u-alice") in
  let w' := world_after (UserManagement.toggleUserAccess "u-bob" false) st w in
  w_db w' = sample_db
  /\ w_console w' = [("Error updating user access:", infinite_recursion "users")]
  /\ state_after (UserManagement.toggleUserAccess "u-bob" false) st w = st
  /\ select_notes (Authenticated "u-bob") (w_db w') = Error (infinite_recursion "users")
  /\ (exists db',
        update_users Owner "u-bob" (mkPatch None (Some true) None) sample_db = Ok db'
        /\ In (User.mk "u-bob" "bob@example.com" true false 2%N) (users db')
        /\ select_notes (Authenticated "u-bob") db' = Error (infinite_recursion "users")).
Proof.
  intros st w.
  destruct (grant_of_access_is_refused st w alice bob) as ((H1 & H2 & H3) & (H4 & _) & H5).
  - simpl. tauto.
  - reflexivity.
  - reflexivity.
  - split; [exact H1|]. split; [exact H2|]. split; [exact H3|]. split; [exact H4|].
    eexists. split; [reflexivity|]. split; [simpl; tauto|].
    apply (H5 _ eq_refl).
Defined.

(** ** Deleting a subject *)

Lemma existsb_filter_id (l : list Subject.t) (ref sid : uuid) :
  existsb (fun s => String.eqb (Subject.id s) ref)
          (filter (fun s => String.eqb (Subject.id s) sid) l)
  = String.eqb ref sid && existsb (fun s => String.eqb (Subject.id s) sid) l.
Proof.
  induction l as [|s l IH]; simpl; [now rewrite andb_false_r|].
  destruct (String.eqb (Subject.id s) sid) eqn:Hs; simpl.
  - rewrite IH. apply String.eqb_eq in Hs. rewrite Hs, (String.eqb_sym sid ref).
    now destruct (String.eqb ref sid).
  - exact IH.
Qed.

Lemma has_subject_remaining (l : list Subject.t) (ref sid : uuid) :
  existsb (fun s => String.eqb (Subject.id s) ref)
          (filter (fun s => negb (String.eqb (Subject.id s) sid)) l)
  = negb (String.eqb ref sid) && existsb (fun s => String.eqb (Subject.id s) ref) l.
Proof.
  induction l as [|s l IH]; simpl; [now rewrite andb_false_r|].
  destruct (String.eqb (Subject.id s) sid) eqn:Hs; simpl; rewrite IH.
  - apply String.eqb_eq in Hs. rewrite <- Hs, (String.eqb_sym ref (Subject.id s)).
    now destruct (String.eqb (Subject.id s) ref).
  - destruct (String.eqb (Subject.id s) ref) eqn:Hr; simpl; [|reflexivity].
    apply String.eqb_eq in Hr. rewrite <- Hr, Hs. reflexivity.
Qed.

Section Cascade.

Variable R : Type.
Variable ref : R -> uuid.

(** The rows that go with a subject are those that reference it. *)
Lemma cascade_rows (subs : list Subject.t) (l : list R) (sid : uuid) :
  forallb (fun r => existsb (fun s => String.eqb (Subject.id s) (ref r)) subs) l = true ->
  filter (fun r => negb (existsb (fun s => String.eqb (Subject.id s) (ref r))
                                 (filter (fun s => String.eqb (Subject.id s) sid) subs)))
         l
  = filter (fun r => negb (String.eqb (ref r) sid)) l.
Proof.
  intros Hfk. apply filter_ext_in. intros r Hr.
  rewrite existsb_filter_id.
  destruct (String.eqb (ref r) sid) eqn:He; [|reflexivity]. simpl.
  rewrite forallb_forall in Hfk. specialize (Hfk r Hr).
  apply String.eqb_eq in He. now rewrite <- He, Hfk.
Qed.

(** The rows that stay reference subjects that stay. *)
Lemma remaining_rows_referenced (subs : list Subject.t) (l : list R) (sid : uuid) :
  forallb (fun r => existsb (fun s => String.eqb (Subject.id s) (ref r)) subs) l = true ->
  forallb (fun r => existsb (fun s => String.eqb (Subject.id s) (ref r))
                            (filter (fun s => negb (String.eqb (Subject.id s) sid)) subs))
          (filter (fun r => negb (String.eqb (ref r) sid)) l) = true.
Proof.
  intros Hfk. rewrite forallb_forall in *. intros r Hr.
  apply filter_In in Hr as [Hr Hne].
  now rewrite has_subject_remaining, Hne, (Hfk r Hr).
Qed.

End Cascade.

(** What a [DELETE] of a subject leaves when it is carried out. *)
Lemma owner_delete_cascades (db : DB) (sid : uuid) :
  no_orphans db = true ->
  delete_subject Owner sid db
  = Ok (mkDB (auth_users db) (users db)
             (filter (fun s => negb (String.eqb (Subject.id s) sid)) (subjects db))
             (filter (fun n => negb (String.eqb (Note.subject_id n) sid)) (notes db))
             (filter (fun v => negb (String.eqb (Video.subject_id v) sid)) (videos db))).
Proof.
  intros Hfk. unfold no_orphans, has_subject in Hfk.
  apply andb_true_iff in Hfk as [Hn Hv].
  rewrite delete_subject_owner.
  rewrite (cascade_rows _ Note.subject_id) by exact Hn.
  now rewrite (cascade_rows _ Video.subject_id) by exact Hv.
Qed.

(** C5: when a subject is deleted, every note and every video whose
    [subject_id] references it is deleted with it, the other rows stay, and
    afterwards every note and video references a subject that exists.  The
    statement that deletes is the one of the owner of the tables; the
    [DELETE] a client sends is refused and deletes nothing, a subject no
    more than a note or a video. *)
Theorem delete_subject_cascades (db : DB) (sid : uuid) :
  no_orphans db = true ->
  (exists db',
      delete_subject Owner sid db = Ok db'
      /\ has_subject db' sid = false
      /\ subjects db' = filter (fun s => negb (String.eqb (Subject.id s) sid)) (subjects db)
      /\ notes db' = filter (fun n => negb (String.eqb (Note.subject_id n) sid)) (notes db)
      /\ videos db' = filter (fun v => negb (String.eqb (Video.subject_id v) sid)) (videos db)
      /\ no_orphans db' = true)
  /\ (forall who db', delete_subject who sid db = Ok db' -> no_orphans db' = true)
  /\ (forall who, client who = true ->
        delete_subject who sid db = Error (infinite_recursion "users")).
Proof.
  intros Hfk.
  assert (Hafter : no_orphans
            (mkDB (auth_users db) (users db)
               (filter (fun s => negb (String.eqb (Subject.id s) sid)) (subjects db))
               (filter (fun n => negb (String.eqb (Note.subject_id n) sid)) (notes db))
               (filter (fun v => negb (String.eqb (Video.subject_id v) sid)) (videos db)))
            = true).
  { unfold no_orphans, has_subject in *; simpl.
    apply andb_true_iff in Hfk as [Hn Hv].
    rewrite (remaining_rows_referenced _ Note.subject_id) by exact Hn.
    now rewrite (remaining_rows_referenced _ Video.subject_id) by exact Hv. }
  split; [|split].
  - eexists. split; [now apply owner_delete_cascades|].
    repeat split; try exact Hafter.
    unfold has_subject; simpl.
    now rewrite has_subject_remaining, String.eqb_refl.
  - intros who db' H. destruct who as [|uid|].
    + now rewrite delete_subject_refused in H.
    + now rewrite delete_subject_refused in H.
    + rewrite (owner_delete_cascades db sid Hfk) in H. injection H as <-. exact Hafter.
  - intros who Hc. now apply delete_subject_refused.
Qed.

Lemma delete_subject_cascades_witness :
  (exists db',
      delete_subject Owner "s-math" sample_db = Ok db'
      /\ has_subject db' "s-math" = false
      /\ subjects db' = [physics]
      /\ notes db' = [quantum]
      /\ videos db' = []
      /\ no_orphans db' = true)
  /\ delete_subject (Authenticated "u-alice") "s-math" sample_db
     = Error (infinite_recursion "users").
Proof.
  destruct (delete_subject_cascades sample_db "s-math") as (H1 & _ & H3); [reflexivity|].
  split; [exact H1 | now apply H3].
Defined.
(** ** Account provisioning *)

Lemma existsb_eqb_false (x : string) (l : list string) :
  existsb (String.eqb x) l = false -> ~ In x l.
Proof.
  induction l as [|y l IH]; simpl; intros H; [tauto|].
  apply orb_false_iff in H as [Hxy Hl]. intros [->|Hin].
  - now rewrite String.eqb_refl in Hxy.
  - now apply IH.
Qed.

Lemma users_keys_ok_ids db : users_keys_ok db = true -> distinct (map User.id (users db)) = true.
Proof. unfold users_keys_ok. intros H. now apply andb_true_iff in H. Qed.

Lemma users_keys_ok_emails db :
  users_keys_ok db = true -> distinct (map User.email (users db)) = true.
Proof. unfold users_keys_ok. intros H. now apply andb_true_iff in H. Qed.

Lemma distinct_snoc (l : list string) (x : string) :
  distinct l = true -> existsb (fun y => String.eqb y x) l = false ->
  distinct (l ++ [x]) = true.
Proof.
  induction l as [|y l IH]; simpl; intros Hd Hx; [reflexivity|].
  apply andb_true_iff in Hd as [Hy Hl]. apply orb_false_iff in Hx as [Hyx Hx].
  rewrite (IH Hl Hx), andb_true_r, existsb_app; simpl.
  apply negb_true_iff in Hy. now rewrite Hy, Hyx.
Qed.

Lemma existsb_map {A} (f : A -> string) (x : string) (l : list A) :
  existsb (fun y => String.eqb y x) (map f l) = existsb (fun a => String.eqb (f a) x) l.
Proof. induction l as [|a l IH]; simpl; [reflexivity|]. now rewrite IH. Qed.

Lemma insert_users_row_keys new db db' :
  users_keys_ok db = true -> insert_users_row new db = Ok db' -> users_keys_ok db' = true.
Proof.
  unfold insert_users_row. intros Hk H.
  destruct (existsb _ (users db)) eqn:Hid; [discriminate|].
  destruct (existsb (fun r => String.eqb (User.email r) _) (users db)) eqn:Hem; [discriminate|].
  destruct (negb _); [discriminate|]. injection H as <-.
  unfold users_keys_ok in *; simpl. apply andb_true_iff in Hk as [Hi He].
  rewrite !map_app; simpl.
  rewrite (distinct_snoc _ _ Hi), (distinct_snoc _ _ He);
    [reflexivity | |]; now rewrite existsb_map.
Qed.

Lemma handle_new_user_keys who now db :
  users_keys_ok db = true -> users_keys_ok (fst (handle_new_user who now db)) = true.
Proof.
  intros Hk. unfold handle_new_user.
  destruct (insert_users_row _ db) eqn:H; simpl; [|exact Hk].
  now apply (insert_users_row_keys _ _ _ Hk H).
Qed.

Lemma handle_new_user_auth who now db :
  auth_users (fst (handle_new_user who now db)) = auth_users db.
Proof.
  unfold handle_new_user, insert_users_row.
  repeat (match goal with |- context [if ?b then _ else _] => destruct b end; simpl);
    reflexivity.
Qed.

Lemma authenticate_known who now db :
  existsb (fun a => String.eqb (AuthUser.id a) (AuthUser.id who)) (auth_users db) = true ->
  authenticate who now db = db.
Proof. unfold authenticate. now intros ->. Qed.

Lemma authenticate_first who now db :
  existsb (fun a => String.eqb (AuthUser.id a) (AuthUser.id who)) (auth_users db) = false ->
  authenticate who now db
  = fst (handle_new_user who now (set_auth_users db (auth_users db ++ [who]))).
Proof.
  unfold authenticate, on_auth_user_created. intros ->.
  now destruct (handle_new_user _ _ _).
Qed.

(** After an authentication the identity is known to the service. *)
Lemma authenticate_registers who now db :
  existsb (fun a => String.eqb (AuthUser.id a) (AuthUser.id who))
          (auth_users (authenticate who now db)) = true.
Proof.
  destruct (existsb (fun a => String.eqb (AuthUser.id a) (AuthUser.id who)) (auth_users db))
    eqn:Hk.
  - now rewrite authenticate_known.
  - rewrite authenticate_first by exact Hk. rewrite handle_new_user_auth; simpl.
    rewrite existsb_app; simpl. now rewrite String.eqb_refl, orb_true_r.
Qed.

Lemma authenticate_keys who now db :
  users_keys_ok db = true -> users_keys_ok (authenticate who now db) = true.
Proof.
  intros Hk.
  destruct (existsb (fun a => String.eqb (AuthUser.id a) (AuthUser.id who)) (auth_users db))
    eqn:Ha.
  - now rewrite authenticate_known.
  - rewrite authenticate_first by exact Ha. now apply handle_new_user_keys.
Qed.

(** A second authentication changes nothing. *)
Lemma authenticate_idempotent who now now' db :
  authenticate who now' (authenticate who now db) = authenticate who now db.
Proof. apply authenticate_known, authenticate_registers. Qed.

Lemma authenticate_times_succ n who now db :
  authenticate_times (S n) who now db = authenticate who now db.
Proof.
  revert db. induction n as [|n IH]; intros db; [reflexivity|].
  change (authenticate_times (S n) who now (authenticate who now db) = authenticate who now db).
  now rewrite IH, authenticate_idempotent.
Qed.

Lemma one_row_per_id (l : list User.t) (x : uuid) :
  distinct (map User.id l) = true ->
  List.length (filter (fun r => String.eqb (User.id r) x) l) <= 1.
Proof.
  induction l as [|r l IH]; simpl; intros Hd; [lia|].
  apply andb_true_iff in Hd as [Hr Hl]. apply negb_true_iff in Hr.
  destruct (String.eqb (User.id r) x) eqn:He; [|now apply IH].
  apply String.eqb_eq in He. subst x. simpl.
  rewrite filter_none; [simpl; lia|].
  intros r' Hr'. apply not_true_is_false. intros He. apply String.eqb_eq in He.
  apply (existsb_eqb_false _ _ Hr). rewrite <- He. now apply in_map.
Qed.

Lemma first_insert_creates_profile who now db db' :
  existsb (fun r => String.eqb (User.id r) (AuthUser.id who)) (users db) = false ->
  insert_users_row (new_profile who now) db = Ok db' ->
  accounts_of (AuthUser.id who) db' = [new_profile who now].
Proof.
  unfold insert_users_row; simpl. intros Hid H. rewrite Hid in H. cbv iota in H.
  destruct (existsb (fun r => String.eqb (User.email r) _) (users db)); [discriminate|].
  destruct (negb _); [discriminate|]. injection H as <-.
  unfold accounts_of; simpl. rewrite filter_app; simpl. rewrite String.eqb_refl.
  rewrite filter_none; [reflexivity|].
  intros r Hr. apply not_true_is_false. intros He.
  assert (Hex : existsb (fun r => String.eqb (User.id r) (AuthUser.id who)) (users db) = true)
    by (apply existsb_exists; eauto).
  congruence.
Qed.

(** The store of the counterexample below is one the owner of the tables
    can write and no client can. *)
Lemma db_email_taken_written_by_owner :
  update_users Owner "u-mallory" (mkPatch (Some "dave@example.com") None None)
               db_mallory_signed_up
  = Ok db_email_taken
  /\ update_users (Authenticated "u-mallory") "u-mallory"
                  (mkPatch (Some "dave@example.com") None None) db_mallory_signed_up
     = Error (infinite_recursion "users").
Proof. split; reflexivity. Qed.

(** C4, as stated, fails with the trigger function of the later migration.
    In [db_email_taken] the address of [dave] stands in [users], in the row
    of another account; the constraints of the table hold.  The store is
    not one a client statement builds: a row gets there when the owner of
    the tables edits it, or when an identity changes its address at the
    authentication service, which leaves the copy in [users] behind.
    [dave] has never authenticated; his first authentication succeeds, the
    insert of his profile violates [UNIQUE (email)], the handler logs it and
    returns, and no account row exists for him. *)
Lemma first_authentication_can_leave_no_account :
  db_email_taken
  = mkDB [mallory_id] [User.mk "u-mallory" "dave@example.com" false false 1%N] [] [] []
  /\ users_keys_ok db_email_taken = true
  /\ existsb (fun a => String.eqb (AuthUser.id a) (AuthUser.id dave_id))
             (auth_users db_email_taken) = false
  /\ on_auth_user_created dave_id 2%N db_email_taken
     = Ok (mkDB [mallory_id; dave_id]
                [User.mk "u-mallory" "dave@example.com" false false 1%N] [] [] [],
           Some (unique_violation "users_email_key"))
  /\ existsb (fun a => String.eqb (AuthUser.id a) (AuthUser.id dave_id))
             (auth_users (authenticate dave_id 2%N db_email_taken)) = true
  /\ accounts_of (AuthUser.id dave_id) (authenticate dave_id 2%N db_email_taken) = [].
Proof. repeat split. Qed.

(** C4, amended.  Any number [n >= 1] of authentications of an identity
    leaves at most one account row for it, and a further authentication
    changes nothing.  On the first authentication, when no row of [users]
    holds the id or the email of the identity, exactly one row is created,
    with [access = false] and [is_admin = false].  When a row of [users]
    holds the email already, the insert of the trigger violates
    [UNIQUE (email)]: with the trigger function of the later migration the
    error is logged, the authentication succeeds and no row is created;
    with the one of the first migration, which has no exception handler,
    the authentication fails, so that there a row is created whenever the
    authentication succeeds. *)
Theorem provisioning_is_idempotent
  (db : DB) (who : AuthUser.t) (now : timestamptz) (n : nat) :
  users_keys_ok db = true -> 1 <= n ->
  let db' := authenticate_times n who now db in
  List.length (accounts_of (AuthUser.id who) db') <= 1
  /\ authenticate who now db' = db'
  /\ (existsb (fun a => String.eqb (AuthUser.id a) (AuthUser.id who)) (auth_users db) = false ->
      existsb (fun r => String.eqb (User.id r) (AuthUser.id who)) (users db) = false ->
      existsb (fun r => String.eqb (User.email r) (AuthUser.email who)) (users db) = false ->
      accounts_of (AuthUser.id who) db'
      = [User.mk (AuthUser.id who) (AuthUser.email who) false false now])
  /\ (existsb (fun a => String.eqb (AuthUser.id a) (AuthUser.id who)) (auth_users db) = false ->
      existsb (fun r => String.eqb (User.id r) (AuthUser.id who)) (users db) = false ->
      forall db1, authenticate_strict who now db = Ok db1 ->
      accounts_of (AuthUser.id who) db1
      = [User.mk (AuthUser.id who) (AuthUser.email who) false false now])
  /\ (existsb (fun a => String.eqb (AuthUser.id a) (AuthUser.id who)) (auth_users db) = false ->
      existsb (fun r => String.eqb (User.id r) (AuthUser.id who)) (users db) = false ->
      existsb (fun r => String.eqb (User.email r) (AuthUser.email who)) (users db) = true ->
      on_auth_user_created who now db
      = Ok (set_auth_users db (auth_users db ++ [who]),
            Some (unique_violation "users_email_key"))
      /\ db' = set_auth_users db (auth_users db ++ [who])
      /\ accounts_of (AuthUser.id who) db' = []
      /\ authenticate_strict who now db = Error (unique_violation "users_email_key")).
Proof.
  intros Hk Hn db'. destruct n as [|n]; [lia|].
  assert (Hdb : db' = authenticate who now db) by (subst db'; apply authenticate_times_succ).
  rewrite Hdb. split; [|split; [|split; [|split]]].
  - apply one_row_per_id, users_keys_ok_ids, authenticate_keys, Hk.
  - apply authenticate_idempotent.
  - intros Ha Hid Hem. rewrite authenticate_first by exact Ha.
    unfold handle_new_user.
    destruct (insert_users_row _ _) eqn:Hins.
    + simpl.
      now apply (first_insert_creates_profile who now
                   (set_auth_users db (auth_users db ++ [who])) _ Hid Hins).
    + exfalso. unfold insert_users_row in Hins; simpl in Hins.
      rewrite Hid, Hem, existsb_app in Hins; simpl in Hins.
      now rewrite String.eqb_refl, orb_true_r in Hins.
  - intros Ha Hid db1 H. unfold authenticate_strict, on_auth_user_created_strict in H.
    rewrite Ha in H. unfold handle_new_user_strict in H.
    now apply (first_insert_creates_profile who now
                 (set_auth_users db (auth_users db ++ [who])) _ Hid H).
  - intros Ha Hid Hem.
    assert (Hins : insert_users_row (new_profile who now)
                     (set_auth_users db (auth_users db ++ [who]))
                   = Error (unique_violation "users_email_key")).
    { unfold insert_users_row; simpl. now rewrite Hid, Hem. }
    assert (Hcreated : on_auth_user_created who now db
                       = Ok (set_auth_users db (auth_users db ++ [who]),
                             Some (unique_violation "users_email_key"))).
    { unfold on_auth_user_created, handle_new_user. now rewrite Ha, Hins. }
    assert (Hauth : authenticate who now db = set_auth_users db (auth_users db ++ [who])).
    { unfold authenticate. now rewrite Ha, Hcreated. }
    split; [exact Hcreated|]. split; [exact Hauth|]. split.
    + rewrite Hauth. unfold accounts_of; simpl. apply filter_none.
      intros r Hr. apply not_true_is_false. intros He.
      assert (Hex : existsb (fun r => String.eqb (User.id r) (AuthUser.id who)) (users db)
                    = true) by (apply existsb_exists; eauto).
      congruence.
    + unfold authenticate_strict, on_auth_user_created_strict, handle_new_user_strict.
      now rewrite Ha, Hins.
Qed.

Lemma provisioning_is_idempotent_witness :
  (let db' := authenticate_times 3 dave_id 5%N sample_db in
   List.length (accounts_of "u-dave" db') <= 1
   /\ authenticate dave_id 5%N db' = db'
   /\ accounts_of "u-dave" db' = [User.mk "u-dave" "dave@example.com" false false 5%N]
   /\ (forall db1, authenticate_strict dave_id 5%N sample_db = Ok db1 ->
       accounts_of "u-dave" db1 = [User.mk "u-dave" "dave@example.com" false false 5%N]))
  /\ (let db' := authenticate_times 3 dave_id 5%N db_email_taken in
      accounts_of "u-dave" db' = []
      /\ authenticate_strict dave_id 5%N db_email_taken
         = Error (unique_violation "users_email_key")).
Proof.
  split.
  - destruct (provisioning_is_idempotent sample_db dave_id 5%N 3) as (H1 & H2 & H3 & H4 & _);
      [reflexivity | lia |].
    intros db'. split; [exact H1|]. split; [exact H2|].
    split; [now apply H3 | intros db1; now apply H4].
  - destruct (provisioning_is_idempotent db_email_taken dave_id 5%N 3) as (_ & _ & _ & _ & H5);
      [reflexivity | lia |].
    destruct H5 as (_ & _ & H7 & H8); try reflexivity.
    intros db'. split; [exact H7 | exact H8].
Defined.

(** ** The access check of the dashboard *)

(** C9: for a signed-in user whose profile is absent or has
    [access = false], the effect of the dashboard sends no request at all
    and the page then shows the "Access Pending" notice; requests are sent
    only for a profile with [access = true], and then they are the three
    queries for subjects, notes and videos. *)
Theorem dashboard_fails_closed (user : option User.t) (st : Dashboard.State) (w : World) :
  ((user = None \/ exists u, user = Some u /\ User.access u = false) ->
     w_requests (world_after (Dashboard.effect user) st w) = w_requests w
     /\ Dashboard.render user (state_after (Dashboard.effect user) st w)
        = Dashboard.AccessPending)
  /\ (w_requests (world_after (Dashboard.effect user) st w) <> w_requests w ->
        exists u, user = Some u /\ User.access u = true)
  /\ ((exists u, user = Some u /\ User.access u = true) ->
        w_requests (world_after (Dashboard.effect user) st w)
        = w_requests w ++ [ReqSelect "subjects"; ReqSelect "notes"; ReqSelect "videos"]).
Proof.
  assert (Hclosed : Dashboard.user_access user = false ->
            w_requests (world_after (Dashboard.effect user) st w) = w_requests w
            /\ Dashboard.render user (state_after (Dashboard.effect user) st w)
               = Dashboard.AccessPending).
  { intros Ha. unfold Dashboard.effect, Dashboard.render. rewrite Ha. split; reflexivity. }
  split; [|split].
  - intros [->|(u & -> & Hu)]; apply Hclosed; [reflexivity | exact Hu].
  - intros Hreq. destruct user as [u|].
    + destruct (User.access u) eqn:Hu; [now exists u|].
      exfalso. apply Hreq. now apply Hclosed.
    + exfalso. apply Hreq. now apply Hclosed.
  - intros (u & -> & Hu). unfold Dashboard.effect; simpl. rewrite Hu.
    unfold world_after, Dashboard.fetchContent, finally, try_catch, bind, query_subjects,
      query.
    cbn [w_session w_db w_collation with_request].
    destruct (select_subjects (w_collation w) (w_session w) (w_db w));
      destruct (select_notes (w_session w) (w_db w));
      destruct (select_videos (w_session w) (w_db w));
      simpl; now rewrite <- !app_assoc.
Qed.

Lemma dashboard_fails_closed_witness :
  (w_requests (world_after (Dashboard.effect (Some bob)) Dashboard.initial
                           (sample_world (Authenticated "u-bob"))) = []
   /\ Dashboard.render (Some bob)
        (state_after (Dashboard.effect (Some bob)) Dashboard.initial
                     (sample_world (Authenticated "u-bob")))
      = Dashboard.AccessPending)
  /\ w_requests (world_after (Dashboard.effect (Some alice)) Dashboard.initial
                             (sample_world (Authenticated "u-alice")))
     = [ReqSelect "subjects"; ReqSelect "notes"; ReqSelect "videos"].
Proof.
  split.
  - apply (dashboard_fails_closed (Some bob) Dashboard.initial
             (sample_world (Authenticated "u-bob"))).
    right. exists bob. split; reflexivity.
  - apply (dashboard_fails_closed (Some alice) Dashboard.initial
             (sample_world (Authenticated "u-alice"))).
    exists alice. split; reflexivity.
Defined.

(** For a profile with access the three queries are answered with an
    error, and the page shows content without a row. *)
Example dashboard_of_alice :
  Dashboard.render (Some alice)
    (state_after (Dashboard.effect (Some alice)) Dashboard.initial
                 (sample_world (Authenticated "u-alice")))
  = Dashboard.Content [] [] [].
Proof. reflexivity. Qed.

(** The page with the sample rows on it. *)
Example dashboard_with_rows :
  Dashboard.render (Some alice) sample_page
  = Dashboard.Content
      [Dashboard.mkCard mathematics 1 1; Dashboard.mkCard physics 1 0]
      [(calculus, Some "Mathematics"); (quantum, Some "Physics")]
      [((calculus_explained, Some "Mathematics"),
        Some "https://img.youtube.com/vi/WUvTyaaNkzM/maxresdefault.jpg")].
Proof. reflexivity. Qed.

(** ** Failures in the handlers *)












Lemma handleAddNote_refused (st : ContentManagement.State) (w : World) (f : File.t) :
  ContentManagement.add_note_rejected st = false ->
  ContentManagement.file (ContentManagement.newNote st) = Some f ->
  w_upload_error w = None ->
  client (w_session w) = true ->
  ContentManagement.handleAddNote st w
  = (Normal tt,
     ContentManagement.mkState
       (ContentManagement.subjects st) (ContentManagement.notes st)
       (ContentManagement.videos st) (ContentManagement.loading st)
       (ContentManagement.selectedSubject st) (ContentManagement.showAddNote st)
       (ContentManagement.showAddVideo st) false (ContentManagement.newNote st)
       (ContentManagement.newVideo st),
     with_console
       (with_request (with_request w (ReqUpload (upload_path w f))) (ReqInsert "notes"))
       "Error adding note:" (infinite_recursion "users")).
Proof.
  intros Hrej Hf Hup Hc.
  unfold ContentManagement.handleAddNote, bind, getState. rewrite Hrej, Hf.
  unfold ContentManagement.setUploadingFile, setState, finally, try_catch, bind,
    ContentManagement.handleFileUpload, bind, ask, ContentManagement.upload.
  rewrite Hup. unfold throw_if, ret, exec.
  cbn [w_session w_db with_request].
  now rewrite (insert_note_refused _ _ _ Hc).
Qed.

Lemma handleAddNote_upload_refused (st : ContentManagement.State) (w : World) (f : File.t)
  (e : pg_error) :
  ContentManagement.add_note_rejected st = false ->
  ContentManagement.file (ContentManagement.newNote st) = Some f ->
  w_upload_error w = Some e ->
  ContentManagement.handleAddNote st w
  = (Normal tt,
     ContentManagement.mkState
       (ContentManagement.subjects st) (ContentManagement.notes st)
       (ContentManagement.videos st) (ContentManagement.loading st)
       (ContentManagement.selectedSubject st) (ContentManagement.showAddNote st)
       (ContentManagement.showAddVideo st) false (ContentManagement.newNote st)
       (ContentManagement.newVideo st),
     with_console (with_request w (ReqUpload (upload_path w f))) "Error adding note:" e).
Proof.
  intros Hrej Hf Hup.
  unfold ContentManagement.handleAddNote, bind, getState. rewrite Hrej, Hf.
  unfold ContentManagement.setUploadingFile, setState, finally, try_catch, bind,
    ContentManagement.handleFileUpload, bind, ask, ContentManagement.upload.
  now rewrite Hup.
Qed.




(** ** The video id *)

Lemma strip_prefix_app (p s rest : string) :
  strip_prefix p s = Some rest -> s = (p ++ rest)%string.
Proof.
  revert s. induction p as [|a p IH]; intros s; simpl.
  - now intros [= ->].
  - destruct s as [|b s]; [discriminate|].
    destruct (Ascii.eqb a b) eqn:E; [|discriminate].
    apply Ascii.eqb_eq in E. subst b. intros H. now rewrite (IH s H).
Qed.

Lemma strip_prefix_of_app (p rest : string) : strip_prefix p (p ++ rest) = Some rest.
Proof.
  induction p as [|a p IH]; simpl; [reflexivity|]. now rewrite Ascii.eqb_refl.
Qed.

(** A string of literal characters matches as a prefix. *)
Lemma run_lit (c : ascii) (p s : string) (cap : option string) (k : JS.cont) :
  JS.run (JS.lit c p) s cap k
  = match strip_prefix (String c p) s with
    | Some rest => k rest cap
    | None => None
    end.
Proof.
  revert c s. induction p as [|c' p IH]; intros c s; simpl.
  - destruct s as [|b s]; [reflexivity|]. now destruct (Ascii.eqb c b).
  - destruct s as [|b s]; [reflexivity|].
    destruct (Ascii.eqb c b); [|reflexivity]. now rewrite IH.
Qed.

Lemma up_to_from_delimiter (s : string) :
  s = (up_to_delimiter s ++ from_delimiter s)%string.
Proof.
  induction s as [|c s IH]; simpl; [reflexivity|].
  destruct (is_delimiter c); simpl; [reflexivity|]. now rewrite <- IH.
Qed.

Lemma length_append (p q : string) :
  String.length (p ++ q) = String.length p + String.length q.
Proof. induction p as [|c p IH]; simpl; [reflexivity|]. now rewrite IH. Qed.

Lemma substring_prefix (p q : string) :
  substring 0 (String.length p) (p ++ q) = p.
Proof.
  induction p as [|c p IH]; simpl.
  - now destruct q.
  - now rewrite IH.
Qed.

Lemma consumed_app (p q : string) : JS.consumed (p ++ q) q = p.
Proof.
  unfold JS.consumed. rewrite length_append.
  replace (String.length p + String.length q - String.length q) with (String.length p) by lia.
  apply substring_prefix.
Qed.

Lemma append_snoc (pre : string) (c : ascii) (x : string) :
  ((pre ++ String c EmptyString) ++ x = pre ++ String c x)%string.
Proof. induction pre as [|a pre IH]; simpl; [reflexivity|]. now rewrite IH. Qed.

(** The greedy [+] in front of the end of the expression stops at the first
    delimiter; [pre] is what group 1 has taken so far. *)
Lemma plus_none_of_greedy (s0 pre s : string) (cap : option string) :
  s0 = (pre ++ s)%string ->
  JS.plus_none_of ["&"; LF; "?"; "#"]%char cap
    (fun s' _ => Some (Some (JS.consumed s0 s'))) s
  = match s with
    | EmptyString => None
    | String c _ =>
        if is_delimiter c then None else Some (Some (pre ++ up_to_delimiter s)%string)
    end.
Proof.
  revert pre. induction s as [|c s IH]; intros pre Hs0; cbn [JS.plus_none_of]; [reflexivity|].
  change (JS.in_class ["&"; LF; "?"; "#"]%char c) with (is_delimiter c).
  destruct (is_delimiter c) eqn:Hc; [reflexivity|].
  assert (Hs0' : s0 = ((pre ++ String c EmptyString) ++ s)%string)
    by (now rewrite append_snoc).
  rewrite (IH _ Hs0'). cbn [up_to_delimiter]. rewrite Hc.
  destruct s as [|c' s'].
  - rewrite Hs0', consumed_app. reflexivity.
  - destruct (is_delimiter c') eqn:Hc'.
    + rewrite Hs0', consumed_app. cbn [up_to_delimiter]. now rewrite Hc'.
    + now rewrite append_snoc.
Qed.

(** Group 1 at a position right after a marker. *)
Lemma group_after_marker (rest : string) :
  JS.run (JS.Group (JS.PlusNoneOf ["&"; LF; "?"; "#"]%char)) rest None
         (fun _ cap => Some cap)
  = if String.eqb (up_to_delimiter rest) "" then None
    else Some (Some (up_to_delimiter rest)).
Proof.
  simpl. rewrite (plus_none_of_greedy rest "" rest None eq_refl).
  destruct rest as [|c rest]; [reflexivity|]. simpl.
  now destruct (is_delimiter c).
Qed.

(** At one position the two markers exclude each other. *)
Lemma markers_exclusive (s rest : string) :
  strip_prefix marker_watch s = Some rest -> strip_prefix marker_short s = None.
Proof.
  unfold marker_watch, marker_short.
  do 5 (destruct s as [|? s]; cbn [strip_prefix]; [discriminate|];
        match goal with
        | |- context [Ascii.eqb ?a ?b] => destruct (Ascii.eqb a b); [|discriminate]
        end).
  destruct s as [|b s]; cbn [strip_prefix]; [discriminate|].
  destruct (Ascii.eqb "b" b) eqn:E; [|discriminate].
  apply Ascii.eqb_eq in E. subst b. reflexivity.
Qed.

Lemma run_seq_alt (a b g : JS.regex) (s : string) (cap : option string) (k : JS.cont) :
  JS.run (JS.Seq (JS.Alt a b) g) s cap k
  = match JS.run a s cap (fun s' cap' => JS.run g s' cap' k) with
    | Some m => Some m
    | None => JS.run b s cap (fun s' cap' => JS.run g s' cap' k)
    end.
Proof. reflexivity. Qed.

(** The expression at one position: a marker, then at least one character
    that is not a delimiter. *)
Lemma youtube_regex_here (s : string) :
  JS.match_here youtube_regex s
  = match after_marker_here s with
    | Some rest =>
        if String.eqb (up_to_delimiter rest) "" then None
        else Some (Some (up_to_delimiter rest))
    | None => None
    end.
Proof.
  unfold JS.match_here, youtube_regex, after_marker_here.
  rewrite run_seq_alt, !run_lit.
  change (String "y" "outube.com/watch?v=") with marker_watch.
  change (String "y" "outu.be/") with marker_short.
  destruct (strip_prefix marker_watch s) as [rest|] eqn:Hw.
  - rewrite (markers_exclusive s rest Hw).
    rewrite (group_after_marker rest).
    now destruct (String.eqb (up_to_delimiter rest) "").
  - destruct (strip_prefix marker_short s) as [rest|]; [|reflexivity].
    apply group_after_marker.
Qed.

Lemma getYouTubeVideoId_step (c : ascii) (s : string) :
  getYouTubeVideoId (String c s)
  = match after_marker_here (String c s) with
    | Some rest =>
        if String.eqb (up_to_delimiter rest) "" then getYouTubeVideoId s
        else Some (up_to_delimiter rest)
    | None => getYouTubeVideoId s
    end.
Proof.
  unfold getYouTubeVideoId. cbn [JS.match_]. rewrite youtube_regex_here.
  destruct (after_marker_here (String c s)) as [rest|]; [|reflexivity].
  now destruct (String.eqb (up_to_delimiter rest) "").
Qed.

Lemma getYouTubeVideoId_empty : getYouTubeVideoId "" = None.
Proof. reflexivity. Qed.

Lemma after_marker_here_contains (s rest : string) :
  after_marker_here s = Some rest ->
  s = (marker_watch ++ rest)%string \/ s = (marker_short ++ rest)%string.
Proof.
  unfold after_marker_here.
  destruct (strip_prefix marker_watch s) as [r|] eqn:Hw.
  - intros [= <-]. left. now apply strip_prefix_app.
  - intros H. right. now apply strip_prefix_app.
Qed.

Lemma after_first_marker_contains (s rest : string) :
  after_first_marker s = Some rest ->
  exists pre, s = (pre ++ marker_watch ++ rest)%string
              \/ s = (pre ++ marker_short ++ rest)%string.
Proof.
  induction s as [|c s IH].
  - cbn [after_first_marker]. destruct (after_marker_here "") eqn:H; [|discriminate].
    intros [= <-]. exists ""%string. now apply after_marker_here_contains.
  - cbn [after_first_marker]. destruct (after_marker_here (String c s)) eqn:H.
    + intros [= <-]. exists ""%string. now apply after_marker_here_contains.
    + intros H'. destruct (IH H') as (pre & [E|E]); exists (String c pre); simpl;
        [left | right]; now rewrite E.
Qed.

(** Without a marker there is no match. *)
Lemma no_marker_no_id (s : string) :
  after_first_marker s = None -> getYouTubeVideoId s = None.
Proof.
  induction s as [|c s IH]; [reflexivity|].
  cbn [after_first_marker]. rewrite getYouTubeVideoId_step.
  destruct (after_marker_here (String c s)); [discriminate|]. exact IH.
Qed.

(** The claimed id is the returned one whenever it is not empty. *)
Lemma claimed_id_when_not_empty (s id : string) :
  claimed_video_id s = Some id -> id <> ""%string -> getYouTubeVideoId s = Some id.
Proof.
  unfold claimed_video_id. induction s as [|c s IH].
  - cbn [after_first_marker]. destruct (after_marker_here "") eqn:H; [|discriminate].
    discriminate H.
  - cbn [after_first_marker]. rewrite getYouTubeVideoId_step.
    destruct (after_marker_here (String c s)) as [rest|]; [|exact IH].
    simpl. intros [= <-] Hne.
    destruct (String.eqb (up_to_delimiter rest) "") eqn:E; [|reflexivity].
    apply String.eqb_eq in E. contradiction.
Qed.

(** What is returned follows some occurrence of a marker, runs up to the
    next delimiter, and is not empty. *)
Lemma returned_id_follows_a_marker (s id : string) :
  getYouTubeVideoId s = Some id ->
  id <> ""%string
  /\ exists pre rest,
       (s = (pre ++ marker_watch ++ rest)%string \/ s = (pre ++ marker_short ++ rest)%string)
       /\ id = up_to_delimiter rest.
Proof.
  induction s as [|c s IH]; [discriminate|].
  rewrite getYouTubeVideoId_step.
  assert (Hrec : getYouTubeVideoId s = Some id ->
                 id <> ""%string
                 /\ exists pre rest,
                      (String c s = (pre ++ marker_watch ++ rest)%string
                       \/ String c s = (pre ++ marker_short ++ rest)%string)
                      /\ id = up_to_delimiter rest).
  { intros H. destruct (IH H) as (Hne & pre & rest & [E|E] & Hid); split; try exact Hne;
      exists (String c pre), rest; simpl; rewrite E; auto. }
  destruct (after_marker_here (String c s)) as [rest|] eqn:Hm; [|exact Hrec].
  destruct (String.eqb (up_to_delimiter rest) "") eqn:E; [exact Hrec|].
  intros [= <-]. split.
  - intros Hid. rewrite Hid in E. discriminate.
  - exists ""%string, rest. split; [|reflexivity].
    now apply after_marker_here_contains.
Qed.

(** C10, as stated, fails where the first marker is followed by a
    delimiter or by nothing: the claimed id is the empty string, and the
    code returns null, or the id after a later marker. *)
Lemma empty_id_is_never_returned :
  (claimed_video_id "https://youtu.be/" = Some ""%string
   /\ getYouTubeVideoId "https://youtu.be/" = None)
  /\ (claimed_video_id "https://youtu.be/?u=https://youtu.be/abc" = Some ""%string
      /\ getYouTubeVideoId "https://youtu.be/?u=https://youtu.be/abc" = Some "abc"%string).
Proof. repeat split. Qed.

(** C10, amended: [getYouTubeVideoId] returns null for every string that
    contains neither marker; it returns the substring that follows the first
    occurrence of a marker up to the first ['&'], newline, ['?'] or ['#']
    whenever that substring is not empty; what it returns is never empty and
    always is such a substring after some occurrence of a marker; and the
    thumbnail is rendered exactly when an id was extracted, from that id. *)
Theorem video_id_extraction (url : string) :
  (~ contains marker_watch url -> ~ contains marker_short url ->
   getYouTubeVideoId url = None)
  /\ (forall id, claimed_video_id url = Some id -> id <> ""%string ->
                 getYouTubeVideoId url = Some id)
  /\ (forall id, getYouTubeVideoId url = Some id ->
        id <> ""%string
        /\ (exists pre rest,
              (url = (pre ++ marker_watch ++ rest)%string
               \/ url = (pre ++ marker_short ++ rest)%string)
              /\ id = up_to_delimiter rest)
        /\ thumbnail url
           = Some ("https://img.youtube.com/vi/" ++ id ++ "/maxresdefault.jpg")%string)
  /\ (getYouTubeVideoId url = None -> thumbnail url = None).
Proof.
  split; [|split; [|split]].
  - intros Hw Hs. apply no_marker_no_id.
    destruct (after_first_marker url) as [rest|] eqn:H; [|reflexivity].
    exfalso. destruct (after_first_marker_contains url rest H) as (pre & [E|E]).
    + apply Hw. now exists pre, rest.
    + apply Hs. now exists pre, rest.
  - apply claimed_id_when_not_empty.
  - intros id H. destruct (returned_id_follows_a_marker url id H) as (Hne & Hex).
    repeat split; [exact Hne | exact Hex |].
    unfold thumbnail, JS.truthy. rewrite H.
    destruct (String.eqb id "") eqn:E; [|reflexivity].
    apply String.eqb_eq in E. contradiction.
  - intros H. unfold thumbnail. now rewrite H.
Qed.

Lemma video_id_extraction_witness :
  getYouTubeVideoId "https://www.youtube.com/watch?v=WUvTyaaNkzM&t=42" = Some "WUvTyaaNkzM"%string
  /\ thumbnail "https://www.youtube.com/watch?v=WUvTyaaNkzM&t=42"
     = Some "https://img.youtube.com/vi/WUvTyaaNkzM/maxresdefault.jpg"%string
  /\ thumbnail "https://example.com/calculus.pdf" = None.
Proof.
  split; [|split].
  - apply (proj1 (proj2 (video_id_extraction
                           "https://www.youtube.com/watch?v=WUvTyaaNkzM&t=42")));
      [reflexivity | discriminate].
  - apply (proj1 (proj2 (proj2 (video_id_extraction
                                  "https://www.youtube.com/watch?v=WUvTyaaNkzM&t=42")))
             "WUvTyaaNkzM"%string).
    reflexivity.
  - apply (proj2 (proj2 (proj2 (video_id_extraction "https://example.com/calculus.pdf")))).
    reflexivity.
Defined.


(** * Further properties *)

(** ** Requests without a session *)

Lemma rls_select_without_policy {R} (cat : catalog) (t : table) (id : R -> uuid) (db : DB)
  (who : caller) (l : list R) :
  bypasses_rls who = false -> applicable SELECT who (policies_of cat t) = [] ->
  rls_select cat t id db who l = Ok [].
Proof.
  intros Hb Hnone. unfold rls_select, rewrite, quals. rewrite Hb, Hnone. simpl.
  f_equal. apply filter_none. intros r _. unfold passes_using. now rewrite Hb, Hnone.
Qed.

(** A request without a session.  The policies of the first migration name
    no role, so they apply to it, and it is answered with error 42P17 like
    every other request.  The policies of the later revision are all [TO
    authenticated] or [TO service_role]: none applies, the rewriter has
    nothing to attach, reads return no row and inserts are refused as
    violations of row-level security. *)
Theorem requests_without_session (db : DB) :
  (select_users Anon db = Error (infinite_recursion "users")
   /\ (forall le, select_subjects le Anon db = Error (infinite_recursion "users"))
   /\ select_notes Anon db = Error (infinite_recursion "users")
   /\ select_videos Anon db = Error (infinite_recursion "users"))
  /\ (forall t c r, rewrite later_migration Anon t c r = None)
  /\ (rls_select later_migration Users User.id db Anon (users db) = Ok []
      /\ rls_select later_migration Subjects Subject.id db Anon (subjects db) = Ok []
      /\ rls_select later_migration Notes Note.id db Anon (notes db) = Ok []
      /\ rls_select later_migration Videos Video.id db Anon (videos db) = Ok [])
  /\ (forall t r id, rls_insert later_migration t db Anon r id
                     = Some (rls_violation (table_name t))).
Proof.
  split; [repeat split|]. split; [intros t c r; destruct t, c, r; reflexivity|].
  split.
  - repeat split; now apply rls_select_without_policy.
  - intros t r id. destruct t, r; reflexivity.
Qed.

(** ** The two revisions of the policies *)

(** For an authenticated caller the policies of the later revision are the
    ones of the first migration, on every table and for every command: the
    policies that apply carry the same names and expressions, the rewriter
    answers alike, and so does the decision on every row. *)
Theorem later_policies_agree (c : command) (db : DB) (uid : uuid) (t : table) :
  (forall old new,
      permitted later_migration t c db (Authenticated uid) old new
      = permitted first_migration t c db (Authenticated uid) old new)
  /\ map body (applicable c (Authenticated uid) (policies_of later_migration t))
     = map body (applicable c (Authenticated uid) (policies_of first_migration t))
  /\ (forall r, rewrite later_migration (Authenticated uid) t c r
                = rewrite first_migration (Authenticated uid) t c r).
Proof.
  split; [|split].
  - intros old new. destruct t, c; reflexivity.
  - destruct t, c; reflexivity.
  - intros r. destruct t, c, r; reflexivity.
Qed.

(** ** Invariants of the statements *)

Lemma update_rows_inv {R} (cat : catalog) (t : table) (id : R -> uuid) (db : DB)
  (who : caller) (where_ : R -> bool) (set : R -> R) (l l' : list R) :
  update_rows cat t id db who where_ set l = Ok l' ->
  l' = map (fun r => if rls_target cat t id UPDATE db who where_ r then set r else r) l.
Proof.
  revert l'. induction l as [|r l IH]; simpl; intros l' H.
  - now injection H as <-.
  - destruct (rls_target cat t id UPDATE db who where_ r).
    + destruct (passes_check cat t UPDATE db who (id (set r))
                && passes_using cat t SELECT db who (id (set r))); [|discriminate].
      destruct (update_rows cat t id db who where_ set l) as [rest|]; [|discriminate].
      injection H as <-. now rewrite (IH rest eq_refl).
    + destruct (update_rows cat t id db who where_ set l) as [rest|]; [|discriminate].
      injection H as <-. now rewrite (IH rest eq_refl).
Qed.

Lemma rls_update_inv {R} (cat : catalog) (t : table) (id : R -> uuid) (db : DB)
  (who : caller) (where_ : R -> bool) (set : R -> R) (l l' : list R) :
  rls_update cat t id db who where_ set l = Ok l' ->
  l' = map (fun r => if rls_target cat t id UPDATE db who where_ r then set r else r) l.
Proof.
  unfold rls_update. destruct (rewrite cat who t UPDATE false); [discriminate|].
  apply update_rows_inv.
Qed.

Lemma rls_delete_inv {R} (cat : catalog) (t : table) (id : R -> uuid) (db : DB)
  (who : caller) (where_ : R -> bool) (l gone kept : list R) :
  rls_delete cat t id db who where_ l = Ok (gone, kept) ->
  exists target, gone = filter target l /\ kept = filter (fun r => negb (target r)) l.
Proof.
  unfold rls_delete. destruct (rewrite cat who t DELETE false); [discriminate|].
  intros [= <- <-]. now exists (rls_target cat t id DELETE db who where_).
Qed.

Lemma has_subject_same_ids (db db' : DB) :
  map Subject.id (subjects db') = map Subject.id (subjects db) ->
  forall sid, has_subject db' sid = has_subject db sid.
Proof.
  intros H sid. unfold has_subject.
  rewrite <- (existsb_map Subject.id sid (subjects db')),
          <- (existsb_map Subject.id sid (subjects db)).
  exact (f_equal (existsb (fun y => String.eqb y sid)) H).
Qed.

Lemma no_orphans_same_ids (db db' : DB) :
  map Subject.id (subjects db') = map Subject.id (subjects db) ->
  notes db' = notes db -> videos db' = videos db ->
  no_orphans db = true -> no_orphans db' = true.
Proof.
  intros Hs Hn Hv H. unfold no_orphans in *. rewrite Hn, Hv.
  apply andb_true_iff in H as [H1 H2]. rewrite forallb_forall in H1, H2.
  apply andb_true_iff. split; apply forallb_forall; intros x Hx;
    rewrite (has_subject_same_ids db db' Hs); auto.
Qed.

Lemma forallb_filter {A} (f g : A -> bool) (l : list A) :
  forallb f l = true -> forallb f (filter g l) = true.
Proof.
  rewrite !forallb_forall. intros H x Hx. apply filter_In in Hx as [Hx _]. now apply H.
Qed.

Section CascadeOfAnyDelete.

Variable R : Type.
Variable ref : R -> uuid.

(** Whatever subjects a [DELETE] removes, the rows that stay after the
    cascade reference subjects that stay. *)
Lemma cascade_keeps_references (target : Subject.t -> bool) (subs : list Subject.t)
  (l : list R) :
  forallb (fun r => existsb (fun s => String.eqb (Subject.id s) (ref r)) subs) l = true ->
  forallb (fun r => existsb (fun s => String.eqb (Subject.id s) (ref r))
                            (filter (fun s => negb (target s)) subs))
          (filter (fun r => negb (existsb (fun s => String.eqb (Subject.id s) (ref r))
                                          (filter target subs)))
                  l) = true.
Proof.
  intros Hfk. rewrite forallb_forall in *. intros r Hr.
  apply filter_In in Hr as [Hr Hkept]. apply negb_true_iff in Hkept.
  specialize (Hfk r Hr). apply existsb_exists in Hfk as (s & Hs & He).
  apply existsb_exists. exists s. split; [|exact He].
  apply filter_In. split; [exact Hs|].
  destruct (target s) eqn:Ht; [|reflexivity].
  exfalso. apply not_true_iff_false in Hkept. apply Hkept.
  apply existsb_exists. exists s. split; [|exact He].
  apply filter_In. now split.
Qed.

End CascadeOfAnyDelete.

(** Every statement on [subjects], [notes] and [videos] that the store
    carries out, for whatever caller, leaves every note and video with a
    subject that exists: the inserts check the reference, the update keeps
    the ids, and the delete of a subject takes the rows that reference it
    along.  A statement that ends with an error changes nothing. *)
Theorem statements_keep_references (who : caller) (db : DB) :
  no_orphans db = true ->
  (forall new db', insert_subject who new db = Ok db' -> no_orphans db' = true)
  /\ (forall new db', insert_note who new db = Ok db' -> no_orphans db' = true)
  /\ (forall new db', insert_video who new db = Ok db' -> no_orphans db' = true)
  /\ (forall sid name description db',
        update_subject who sid name description db = Ok db' -> no_orphans db' = true)
  /\ (forall sid db', delete_subject who sid db = Ok db' -> no_orphans db' = true)
  /\ (forall nid db', delete_note who nid db = Ok db' -> no_orphans db' = true)
  /\ (forall vid db', delete_video who vid db = Ok db' -> no_orphans db' = true).
Proof.
  intros Hfk. repeat split.
  - intros new db' H. unfold insert_subject, insert_subject_with in H.
    destruct (rls_insert _ _ _ _ _ _); [discriminate|].
    destruct (has_subject db _); [discriminate|].
    injection H as <-. unfold no_orphans, has_subject in *; simpl.
    apply andb_true_iff in Hfk as [Hn Hv]. rewrite forallb_forall in Hn, Hv.
    apply andb_true_iff. split; apply forallb_forall; intros x Hx;
      rewrite existsb_app; [rewrite (Hn x Hx) | rewrite (Hv x Hx)]; reflexivity.
  - intros new db' H. unfold insert_note in H.
    destruct (rls_insert _ _ _ _ _ _); [discriminate|].
    destruct (existsb _ (notes db)); [discriminate|].
    destruct (has_subject db (Note.subject_id new)) eqn:Hs; [|discriminate].
    injection H as <-. unfold no_orphans in *.
    change (forallb (fun n => has_subject db (Note.subject_id n)) (notes db ++ [new])
            && forallb (fun v => has_subject db (Video.subject_id v)) (videos db) = true).
    apply andb_true_iff in Hfk as [Hn Hv].
    rewrite forallb_app, Hn, Hv; simpl. now rewrite Hs.
  - intros new db' H. unfold insert_video in H.
    destruct (rls_insert _ _ _ _ _ _); [discriminate|].
    destruct (existsb _ (videos db)); [discriminate|].
    destruct (has_subject db (Video.subject_id new)) eqn:Hs; [|discriminate].
    injection H as <-. unfold no_orphans in *.
    change (forallb (fun n => has_subject db (Note.subject_id n)) (notes db)
            && forallb (fun v => has_subject db (Video.subject_id v)) (videos db ++ [new])
            = true).
    apply andb_true_iff in Hfk as [Hn Hv].
    rewrite forallb_app, Hn, Hv; simpl. now rewrite Hs.
  - intros sid name description db' H. unfold update_subject in H.
    destruct (rls_update _ _ _ _ _ _ _ _) as [l|] eqn:Hup; [|discriminate].
    injection H as <-. apply rls_update_inv in Hup.
    apply (no_orphans_same_ids db); try reflexivity; [|exact Hfk].
    simpl. rewrite Hup, map_map. apply map_ext. intros s.
    now destruct (rls_target _ _ _ _ _ _ _ s).
  - intros sid db' H. unfold delete_subject in H.
    destruct (rls_delete _ _ _ _ _ _ _) as [[gone kept]|] eqn:Hdel; [|discriminate].
    injection H as <-. apply rls_delete_inv in Hdel as (target & -> & ->).
    unfold no_orphans, has_subject in *; simpl.
    apply andb_true_iff in Hfk as [Hn Hv].
    rewrite (cascade_keeps_references _ Note.subject_id) by exact Hn.
    now rewrite (cascade_keeps_references _ Video.subject_id) by exact Hv.
  - intros nid db' H. unfold delete_note in H.
    destruct (rls_delete _ _ _ _ _ _ _) as [[gone kept]|] eqn:Hdel; [|discriminate].
    injection H as <-. apply rls_delete_inv in Hdel as (target & -> & ->).
    unfold no_orphans in *. apply andb_true_iff in Hfk as [Hn Hv].
    change (forallb (fun n => has_subject db (Note.subject_id n))
              (filter (fun r => negb (target r)) (notes db))
            && forallb (fun v => has_subject db (Video.subject_id v)) (videos db) = true).
    now rewrite forallb_filter, Hv.
  - intros vid db' H. unfold delete_video in H.
    destruct (rls_delete _ _ _ _ _ _ _) as [[gone kept]|] eqn:Hdel; [|discriminate].
    injection H as <-. apply rls_delete_inv in Hdel as (target & -> & ->).
    unfold no_orphans in *. apply andb_true_iff in Hfk as [Hn Hv].
    change (forallb (fun n => has_subject db (Note.subject_id n)) (notes db)
            && forallb (fun v => has_subject db (Video.subject_id v))
                 (filter (fun r => negb (target r)) (videos db)) = true).
    now rewrite forallb_filter, Hn.
Qed.

Lemma statements_keep_references_witness :
  (exists db', delete_subject Owner "s-phys" sample_db = Ok db' /\ no_orphans db' = true)
  /\ insert_note Owner (Note.mk "n-new" "s-gone" "Algebra" "https://example.com/a.pdf" 5%N)
                 sample_db
     = Error (foreign_key_violation "notes_subject_id_fkey")
  /\ (exists db',
        insert_note Owner (Note.mk "n-new" "s-math" "Algebra" "https://example.com/a.pdf" 5%N)
                    sample_db = Ok db'
        /\ no_orphans db' = true).
Proof.
  destruct (statements_keep_references Owner sample_db eq_refl)
    as (_ & Hn & _ & _ & Hs & _ & _).
  split; [|split].
  - eexists. split; [reflexivity|]. now apply (Hs "s-phys").
  - reflexivity.
  - eexists. split; [reflexivity|].
    now apply (Hn (Note.mk "n-new" "s-math" "Algebra" "https://example.com/a.pdf" 5%N)).
Defined.

(** The owner of the tables sets the flags of a row, as step 5 of the
    README has it. *)
Example owner_sets_flags :
  update_users Owner "u-bob" (mkPatch None (Some true) (Some true)) sample_db
  = Ok (set_users sample_db
          [alice; User.mk "u-bob" "bob@example.com" true true 2%N; carol]).
Proof. reflexivity. Qed.

(** An address that another account holds is refused. *)
Example email_of_another_account_is_refused :
  update_users Owner "u-bob" (mkPatch (Some "alice@example.com") None None) sample_db
  = Error (unique_violation "users_email_key").
Proof. reflexivity. Qed.

(** ** Queries that are refused *)

Lemma fetchUsers_refused (st : UserManagement.State) (w : World) :
  client (w_session w) = true ->
  UserManagement.fetchUsers st w
  = (Normal tt, UserManagement.mkState (UserManagement.users st) false,
     with_console (with_request w (ReqSelect "users"))
                  "Error fetching users:" (infinite_recursion "users")).
Proof.
  intros Hc. unfold UserManagement.fetchUsers, finally, try_catch, bind, query.
  now rewrite (select_users_refused _ _ Hc).
Qed.

Lemma fetchSubjects_refused (st : SubjectManagement.State) (w : World) :
  client (w_session w) = true ->
  SubjectManagement.fetchSubjects st w
  = (Normal tt,
     SubjectManagement.mkState (SubjectManagement.subjects st) false
       (SubjectManagement.editingSubject st) (SubjectManagement.isAdding st),
     with_console (with_request w (ReqSelect "subjects"))
                  "Error fetching subjects:" (infinite_recursion "users")).
Proof.
  intros Hc.
  unfold SubjectManagement.fetchSubjects, finally, try_catch, bind, query_subjects, query.
  now rewrite (select_subjects_refused _ _ _ Hc).
Qed.

(** The pages after their first load.  The queries of a signed-in caller
    are answered with error 42P17.  [fetchUsers] and [fetchSubjects] throw
    the error of the response and write it to the console; [fetchData] and
    [fetchContent] only look at the data of the responses and write
    nothing.  In each case the list of the page is left as it was and the
    loading indicator is taken away. *)
Theorem refused_queries_leave_lists (w : World) (uid : uuid) :
  w_session w = Authenticated uid ->
  (forall st,
      state_after UserManagement.fetchUsers st w
      = UserManagement.mkState (UserManagement.users st) false
      /\ w_console (world_after UserManagement.fetchUsers st w)
         = w_console w ++ [("Error fetching users:", infinite_recursion "users")])
  /\ (forall st,
        SubjectManagement.subjects (state_after SubjectManagement.fetchSubjects st w)
        = SubjectManagement.subjects st
        /\ SubjectManagement.loading (state_after SubjectManagement.fetchSubjects st w) = false
        /\ w_console (world_after SubjectManagement.fetchSubjects st w)
           = w_console w ++ [("Error fetching subjects:", infinite_recursion "users")])
  /\ (forall st,
        ContentManagement.subjects (state_after ContentManagement.fetchData st w)
        = ContentManagement.subjects st
        /\ ContentManagement.loading (state_after ContentManagement.fetchData st w) = false
        /\ w_console (world_after ContentManagement.fetchData st w) = w_console w
        /\ w_requests (world_after ContentManagement.fetchData st w)
           = w_requests w ++ [ReqSelect "subjects"; ReqSelect "notes"; ReqSelect "videos"])
  /\ (forall st,
        state_after Dashboard.fetchContent st w
        = Dashboard.mkState (Dashboard.subjects st) (Dashboard.notes st)
                            (Dashboard.videos st) false
        /\ w_console (world_after Dashboard.fetchContent st w) = w_console w).
Proof.
  intros Hs. assert (Hc : client (w_session w) = true) by now rewrite Hs.
  unfold state_after, world_after. repeat split.
  - now rewrite (fetchUsers_refused st w Hc).
  - now rewrite (fetchUsers_refused st w Hc).
  - now rewrite (fetchSubjects_refused st w Hc).
  - now rewrite (fetchSubjects_refused st w Hc).
  - now rewrite (fetchSubjects_refused st w Hc).
  - now rewrite (fetchData_refused st w Hc).
  - now rewrite (fetchData_refused st w Hc).
  - now rewrite (fetchData_refused st w Hc).
  - rewrite (fetchData_refused st w Hc). simpl. now rewrite <- !app_assoc.
  - now rewrite (fetchContent_refused st w Hc).
  - now rewrite (fetchContent_refused st w Hc).
Qed.

Lemma refused_queries_leave_lists_witness :
  let w := sample_world (Authenticated "u-alice") in
  state_after UserManagement.fetchUsers UserManagement.initial w
  = UserManagement.mkState [] false
  /\ w_console (world_after UserManagement.fetchUsers UserManagement.initial w)
     = [("Error fetching users:", infinite_recursion "users")]
  /\ state_after Dashboard.fetchContent Dashboard.initial w
     = Dashboard.mkState [] [] [] false.
Proof.
  intros w.
  destruct (refused_queries_leave_lists w "u-alice" eq_refl) as (Hu & _ & _ & Hd).
  destruct (Hu UserManagement.initial) as [H1 H2].
  destruct (Hd Dashboard.initial) as [H3 _].
  split; [exact H1|]. split; [exact H2 | exact H3].
Defined.

(** ** The toggles of the user list *)

(** A toggle of [access] or [is_admin] in the user list, sent by any
    signed-in caller for any account: the update is answered with error
    42P17, the handler writes it to the console under its own message, and
    neither the store nor the list of the page changes. *)
Theorem refused_toggles_are_logged (userId : uuid) (current : bool)
  (st : UserManagement.State) (w : World) (uid : uuid) :
  w_session w = Authenticated uid ->
  UserManagement.toggleUserAccess userId current st w
  = (Normal tt, st,
     with_console (with_request w (ReqUpdate "users"))
                  "Error updating user access:" (infinite_recursion "users"))
  /\ UserManagement.toggleAdminStatus userId current st w
     = (Normal tt, st,
        with_console (with_request w (ReqUpdate "users"))
                     "Error updating admin status:" (infinite_recursion "users"))
  /\ w_db (world_after (UserManagement.toggleUserAccess userId current) st w) = w_db w
  /\ w_db (world_after (UserManagement.toggleAdminStatus userId current) st w) = w_db w.
Proof.
  intros Hs. assert (Hc : client (w_session w) = true) by now rewrite Hs.
  unfold world_after.
  rewrite (toggleUserAccess_refused userId current st w Hc),
    (toggleAdminStatus_refused userId current st w Hc).
  repeat split.
Qed.

Lemma refused_toggles_are_logged_witness :
  let st := UserManagement.mkState [carol; bob; alice] false in
  let w := sample_world (Authenticated "u-bob") in
  state_after (UserManagement.toggleAdminStatus "u-bob" false) st w = st
  /\ w_console (world_after (UserManagement.toggleAdminStatus "u-bob" false) st w)
     = [("Error updating admin status:", infinite_recursion "users")]
  /\ w_db (world_after (UserManagement.toggleUserAccess "u-carol" false) st w) = sample_db.
Proof.
  intros st w.
  destruct (refused_toggles_are_logged "u-bob" false st w "u-bob" eq_refl)
    as (_ & H2 & _ & _).
  destruct (refused_toggles_are_logged "u-carol" false st w "u-bob" eq_refl)
    as (_ & _ & H3 & _).
  unfold state_after, world_after. rewrite H2.
  split; [reflexivity|]. split; [reflexivity | exact H3].
Defined.

(** ** New accounts *)

(** The two revisions of the trigger function agree wherever the first one
    lets the authentication succeed; where it fails on a new identity, the
    later one registers the identity and leaves [users] as it was. *)
Theorem trigger_revisions_agree (db : DB) (who : AuthUser.t) (now : timestamptz) :
  (forall db', authenticate_strict who now db = Ok db' -> authenticate who now db = db')
  /\ (forall e, authenticate_strict who now db = Error e ->
        users (authenticate who now db) = users db
        /\ auth_users (authenticate who now db) = auth_users db ++ [who]).
Proof.
  unfold authenticate_strict, authenticate, on_auth_user_created_strict,
    on_auth_user_created, handle_new_user_strict, handle_new_user.
  destruct (existsb _ (auth_users db)).
  - split; [now intros db' [= <-] | discriminate].
  - destruct (insert_users_row _ _) as [db1|e1].
    + split; [now intros db' [= <-] | discriminate].
    + split; [discriminate | intros e _; split; reflexivity].
Qed.

Lemma trigger_revisions_agree_witness :
  authenticate dave_id 5%N sample_db
  = mkDB (auth_users sample_db ++ [dave_id])
         [alice; bob; carol; User.mk "u-dave" "dave@example.com" false false 5%N]
         [mathematics; physics] [calculus; quantum] [calculus_explained]
  /\ users (authenticate dave_id 2%N db_email_taken) = users db_email_taken.
Proof.
  split.
  - apply (proj1 (trigger_revisions_agree sample_db dave_id 5%N)). reflexivity.
  - apply (proj2 (trigger_revisions_agree db_email_taken dave_id 2%N)
             (unique_violation "users_email_key")).
    reflexivity.
Defined.

(** ** Names of white space *)

Lemma drop_prefix_length (p s rest : string) :
  JS.drop_prefix p s = Some rest ->
  String.length s = String.length p + String.length rest.
Proof.
  revert s. induction p as [|a p IH]; intros s; simpl.
  - now intros [= ->].
  - destruct s as [|b s]; [discriminate|].
    destruct (Ascii.eqb a b); [|discriminate].
    intros H. simpl. now rewrite (IH s H).
Qed.

Lemma first_match {A B} (f : A -> option B) (l : list A) (b : B) :
  fold_right (fun a rest => match f a with Some r => Some r | None => rest end) None l
  = Some b ->
  exists a, In a l /\ f a = Some b.
Proof.
  induction l as [|a l IH]; simpl; [discriminate|].
  destruct (f a) as [r|] eqn:E.
  - intros [= <-]. exists a. split; [now left | exact E].
  - intros H. destruct (IH H) as (a' & Hin & Ha'). exists a'. split; [now right | exact Ha'].
Qed.

Lemma white_space_not_empty : Forall (fun p => 1 <= String.length p) JS.white_space.
Proof. unfold JS.white_space. repeat constructor. Qed.

Lemma drop_white_space_shorter (s rest : string) :
  JS.drop_white_space s = Some rest -> String.length rest < String.length s.
Proof.
  intros H. apply first_match in H as (p & Hin & Hp).
  apply drop_prefix_length in Hp.
  pose proof (proj1 (Forall_forall _ _) white_space_not_empty p Hin) as Hlen.
  simpl in Hlen. lia.
Qed.

(** Stripping stops at the empty string or at a character that is no white
    space. *)
Lemma trim_start_upto_stops (n : nat) (s : string) :
  String.length s <= n ->
  JS.trim_start_upto n s = EmptyString
  \/ JS.drop_white_space (JS.trim_start_upto n s) = None.
Proof.
  revert s. induction n as [|n IH]; intros s Hlen.
  - destruct s; [now left | simpl in Hlen; lia].
  - simpl. destruct (JS.drop_white_space s) as [rest|] eqn:E; [|now right].
    apply IH. apply drop_white_space_shorter in E. lia.
Qed.

Lemma trim_start_upto_enough (n m : nat) (s : string) :
  String.length s <= n -> String.length s <= m ->
  JS.trim_start_upto n s = JS.trim_start_upto m s.
Proof.
  revert m s. induction n as [|n IH]; intros m s Hn Hm.
  - destruct s; [|simpl in Hn; lia]. now destruct m.
  - destruct m as [|m].
    + destruct s; [reflexivity | simpl in Hm; lia].
    + simpl. destruct (JS.drop_white_space s) as [rest|] eqn:E; [|reflexivity].
      apply drop_white_space_shorter in E. apply IH; lia.
Qed.

Lemma trim_start_fixed (s : string) :
  JS.drop_white_space s = None -> JS.trim_start s = s.
Proof.
  intros H. unfold JS.trim_start. destruct (String.length s); simpl; [reflexivity|].
  now rewrite H.
Qed.

Lemma trim_end_empty (s : string) : JS.trim_end s = EmptyString <-> JS.blank s = true.
Proof.
  destruct s as [|c s]; simpl; [split; reflexivity|].
  destruct (JS.blank (String c s)); split; intros H; try reflexivity; discriminate.
Qed.

(** The trimmed string is empty exactly when the string is blank. *)
Lemma trim_empty (s : string) : JS.trim s = EmptyString <-> JS.blank s = true.
Proof.
  unfold JS.trim. rewrite trim_end_empty. unfold JS.blank at 2.
  destruct (trim_start_upto_stops (String.length s) s (le_n _)) as [E|E];
    fold (JS.trim_start s) in E.
  - rewrite E. split; reflexivity.
  - unfold JS.blank. rewrite (trim_start_fixed _ E). reflexivity.
Qed.

Lemma drop_white_space_app (p s : string) :
  In p JS.white_space -> JS.drop_white_space (p ++ s) = Some s.
Proof.
  intros H. unfold JS.white_space in H. cbv in H.
  repeat (destruct H as [<-|H]; [reflexivity|]). contradiction.
Qed.

Lemma blank_after_white_space (p s : string) :
  In p JS.white_space -> JS.blank (p ++ s) = JS.blank s.
Proof.
  intros H. unfold JS.blank, JS.trim_start.
  pose proof (drop_white_space_app p s H) as E.
  pose proof (drop_white_space_shorter _ _ E) as Hlen.
  destruct (String.length (p ++ s)) as [|n] eqn:Hn; [lia|].
  simpl. rewrite E.
  now rewrite (trim_start_upto_enough n (String.length s) s) by lia.
Qed.

(** The guard of [handleSave] fires exactly when no subject is being edited
    or the name is blank: empty, or white space only, where white space is
    all that [trim] strips, also U+00A0, U+FEFF, U+2028 and the space
    separators beyond the 7-bit characters.  A name that starts with
    another character is not blank. *)
Theorem blank_names_are_not_saved (st : SubjectManagement.State) :
  (SubjectManagement.save_rejected st = true
   <-> SubjectManagement.editingSubject st = None
       \/ exists es, SubjectManagement.editingSubject st = Some es
                     /\ JS.blank (SubjectManagement.name es) = true)
  /\ JS.blank "" = true
  /\ (forall p s, In p JS.white_space -> JS.blank (p ++ s) = JS.blank s)
  /\ (forall s, s <> EmptyString -> JS.drop_white_space s = None -> JS.blank s = false)
  /\ (forall w, SubjectManagement.save_rejected st = true ->
                SubjectManagement.handleSave st w = (Normal tt, st, w)).
Proof.
  split; [|split; [reflexivity|split; [|split]]].
  - unfold SubjectManagement.save_rejected.
    destruct (SubjectManagement.editingSubject st) as [es|].
    + unfold JS.truthy. rewrite negb_involutive, String.eqb_eq, trim_empty.
      split; [intros H; right; now exists es|].
      intros [H|(es' & [= <-] & H)]; [discriminate | exact H].
    + split; [now left | reflexivity].
  - apply blank_after_white_space.
  - intros s Hne H. unfold JS.blank. rewrite (trim_start_fixed _ H).
    apply String.eqb_neq. exact Hne.
  - intros w H. unfold SubjectManagement.handleSave, bind, getState. now rewrite H.
Qed.

Lemma blank_names_are_not_saved_witness :
  let nbsp := JS.bytes [194; 160] in
  let ideographic_space := JS.bytes [227; 128; 128] in
  SubjectManagement.save_rejected
    (SubjectManagement.mkState [] false
       (Some (SubjectManagement.mkEditing None (nbsp ++ " " ++ ideographic_space) None)) true)
  = true
  /\ SubjectManagement.save_rejected
       (SubjectManagement.mkState [] false
          (Some (SubjectManagement.mkEditing None (nbsp ++ "Chemistry") None)) true)
     = false.
Proof.
  intros nbsp ideographic_space. split.
  - apply (proj1 (blank_names_are_not_saved
                    (SubjectManagement.mkState [] false
                       (Some (SubjectManagement.mkEditing None
                                (nbsp ++ " " ++ ideographic_space) None)) true))).
    right. eexists. split; reflexivity.
  - reflexivity.
Defined.

(** ** Deleting subjects, notes and videos *)

Lemma handleDelete_refused (subjectId : uuid) (st : SubjectManagement.State) (w : World) :
  client (w_session w) = true ->
  SubjectManagement.handleDelete true subjectId st w
  = (Normal tt, st,
     with_console (with_request w (ReqDelete "subjects"))
                  "Error deleting subject:" (infinite_recursion "users")).
Proof.
  intros Hc. unfold SubjectManagement.handleDelete, try_catch, bind, getState, exec; simpl.
  now rewrite (delete_subject_refused _ _ _ Hc).
Qed.

(** [handleDelete]: when the dialog is declined nothing happens.  When it
    is confirmed, the delete of a signed-in caller is answered with error
    42P17: the error is written to the console, the subject stays in the
    store with its notes and videos, and it stays in the list of the
    page. *)
Theorem refused_delete_keeps_subject (subjectId : uuid) (st : SubjectManagement.State)
  (w : World) (uid : uuid) :
  w_session w = Authenticated uid ->
  SubjectManagement.handleDelete false subjectId st w = (Normal tt, st, w)
  /\ state_after (SubjectManagement.handleDelete true subjectId) st w = st
  /\ w_db (world_after (SubjectManagement.handleDelete true subjectId) st w) = w_db w
  /\ w_console (world_after (SubjectManagement.handleDelete true subjectId) st w)
     = w_console w ++ [("Error deleting subject:", infinite_recursion "users")]
  /\ w_requests (world_after (SubjectManagement.handleDelete true subjectId) st w)
     = w_requests w ++ [ReqDelete "subjects"].
Proof.
  intros Hs. assert (Hc : client (w_session w) = true) by now rewrite Hs.
  unfold state_after, world_after.
  rewrite (handleDelete_refused subjectId st w Hc). repeat split.
Qed.

Lemma refused_delete_keeps_subject_witness :
  let st := SubjectManagement.mkState [mathematics; physics] false None false in
  let w := sample_world (Authenticated "u-alice") in
  state_after (SubjectManagement.handleDelete true "s-math") st w = st
  /\ w_db (world_after (SubjectManagement.handleDelete true "s-math") st w) = sample_db
  /\ w_console (world_after (SubjectManagement.handleDelete true "s-math") st w)
     = [("Error deleting subject:", infinite_recursion "users")].
Proof.
  intros st w.
  destruct (refused_delete_keeps_subject "s-math" st w "u-alice" eq_refl)
    as (_ & H1 & H2 & H3 & _).
  split; [exact H1|]. split; [exact H2 | exact H3].
Defined.

Lemma handleDeleteNote_refused (noteId : uuid) (st : ContentManagement.State) (w : World) :
  client (w_session w) = true ->
  ContentManagement.handleDeleteNote true noteId st w
  = (Normal tt, st,
     with_console (with_request w (ReqDelete "notes"))
                  "Error deleting note:" (infinite_recursion "users")).
Proof.
  intros Hc. unfold ContentManagement.handleDeleteNote, try_catch, bind, getState, exec; simpl.
  now rewrite (delete_note_refused _ _ _ Hc).
Qed.

Lemma handleDeleteVideo_refused (videoId : uuid) (st : ContentManagement.State) (w : World) :
  client (w_session w) = true ->
  ContentManagement.handleDeleteVideo true videoId st w
  = (Normal tt, st,
     with_console (with_request w (ReqDelete "videos"))
                  "Error deleting video:" (infinite_recursion "users")).
Proof.
  intros Hc. unfold ContentManagement.handleDeleteVideo, try_catch, bind, getState, exec; simpl.
  now rewrite (delete_video_refused _ _ _ Hc).
Qed.

(** [handleDeleteNote] and [handleDeleteVideo]: a declined dialog changes
    nothing; a confirmed delete of a signed-in caller is answered with
    error 42P17, which is written to the console, and the row stays in the
    store and in the list of the page. *)
Theorem refused_delete_keeps_content (rowId : uuid) (st : ContentManagement.State)
  (w : World) (uid : uuid) :
  w_session w = Authenticated uid ->
  (ContentManagement.handleDeleteNote false rowId st w = (Normal tt, st, w)
   /\ ContentManagement.handleDeleteNote true rowId st w
      = (Normal tt, st,
         with_console (with_request w (ReqDelete "notes"))
                      "Error deleting note:" (infinite_recursion "users")))
  /\ (ContentManagement.handleDeleteVideo false rowId st w = (Normal tt, st, w)
      /\ ContentManagement.handleDeleteVideo true rowId st w
         = (Normal tt, st,
            with_console (with_request w (ReqDelete "videos"))
                         "Error deleting video:" (infinite_recursion "users")))
  /\ w_db (world_after (ContentManagement.handleDeleteNote true rowId) st w) = w_db w
  /\ w_db (world_after (ContentManagement.handleDeleteVideo true rowId) st w) = w_db w.
Proof.
  intros Hs. assert (Hc : client (w_session w) = true) by now rewrite Hs.
  unfold world_after.
  rewrite (handleDeleteNote_refused rowId st w Hc), (handleDeleteVideo_refused rowId st w Hc).
  repeat split.
Qed.

Lemma refused_delete_keeps_content_witness :
  let st := ContentManagement.mkState [mathematics; physics]
              [(calculus, Some "Mathematics")] [(calculus_explained, Some "Mathematics")]
              false "" false false false
              (ContentManagement.mkNewNote "" None) (ContentManagement.mkNewVideo "" "") in
  let w := sample_world (Authenticated "u-alice") in
  ContentManagement.notes (state_after (ContentManagement.handleDeleteNote true "n-calc") st w)
  = [(calculus, Some "Mathematics")]
  /\ w_db (world_after (ContentManagement.handleDeleteVideo true "v-calc") st w) = sample_db.
Proof.
  intros st w.
  destruct (refused_delete_keeps_content "n-calc" st w "u-alice" eq_refl)
    as ((_ & H1) & _ & _ & _).
  destruct (refused_delete_keeps_content "v-calc" st w "u-alice" eq_refl)
    as (_ & _ & _ & H2).
  unfold state_after. rewrite H1. split; [reflexivity | exact H2].
Defined.

(** ** Adding notes and videos *)

Lemma handleAddVideo_refused (st : ContentManagement.State) (w : World) :
  ContentManagement.add_video_rejected st = false ->
  client (w_session w) = true ->
  ContentManagement.handleAddVideo st w
  = (Normal tt, st,
     with_console (with_request w (ReqInsert "videos"))
                  "Error adding video:" (infinite_recursion "users")).
Proof.
  intros Hrej Hc.
  unfold ContentManagement.handleAddVideo, bind, getState. rewrite Hrej.
  unfold try_catch, bind, ask, exec.
  now rewrite (insert_video_refused _ _ _ Hc).
Qed.

(** [handleAddNote] with a title, a file and a subject chosen, for a
    signed-in caller.  The file is uploaded first.  When the storage refuses
    it, no insert is sent.  When the storage accepts it, the insert of the
    note is answered with error 42P17: the upload has been made and no row
    of [notes] refers to the file.  Either way the error is on the console,
    the form is as it was, no reload is started and the upload indicator is
    off again.  [handleAddVideo] sends its insert, which is refused as
    well. *)
Theorem refused_note_leaves_file_behind (st : ContentManagement.State) (w : World)
  (f : File.t) (uid : uuid) :
  ContentManagement.add_note_rejected st = false ->
  ContentManagement.file (ContentManagement.newNote st) = Some f ->
  w_session w = Authenticated uid ->
  let st' := state_after ContentManagement.handleAddNote st w in
  let w' := world_after ContentManagement.handleAddNote st w in
  (forall e, w_upload_error w = Some e ->
             w_requests w' = w_requests w ++ [ReqUpload (upload_path w f)]
             /\ w_console w' = w_console w ++ [("Error adding note:", e)])
  /\ (w_upload_error w = None ->
      w_requests w' = w_requests w ++ [ReqUpload (upload_path w f); ReqInsert "notes"]
      /\ w_console w' = w_console w ++ [("Error adding note:", infinite_recursion "users")])
  /\ w_db w' = w_db w
  /\ w_started w' = w_started w
  /\ ContentManagement.uploadingFile st' = false
  /\ ContentManagement.newNote st' = ContentManagement.newNote st
  /\ ContentManagement.showAddNote st' = ContentManagement.showAddNote st
  /\ ContentManagement.notes st' = ContentManagement.notes st
  /\ (ContentManagement.add_video_rejected st = false ->
      ContentManagement.handleAddVideo st w
      = (Normal tt, st,
         with_console (with_request w (ReqInsert "videos"))
                      "Error adding video:" (infinite_recursion "users"))).
Proof.
  intros Hrej Hf Hs st' w'. subst st' w'.
  assert (Hc : client (w_session w) = true) by now rewrite Hs.
  unfold state_after, world_after.
  destruct (w_upload_error w) as [e|] eqn:Hup.
  - rewrite (handleAddNote_upload_refused st w f e Hrej Hf Hup).
    split; [intros e' [= <-]; split; reflexivity|].
    split; [discriminate|]. repeat split.
    intros Hv. now apply handleAddVideo_refused.
  - rewrite (handleAddNote_refused st w f Hrej Hf Hup Hc).
    split; [discriminate|].
    split; [intros _; simpl; rewrite <- app_assoc; split; reflexivity|].
    repeat split.
    intros Hv. now apply handleAddVideo_refused.
Qed.

Lemma refused_note_leaves_file_behind_witness :
  let st := ContentManagement.mkState [mathematics] [] [] false "s-math" true false false
              (ContentManagement.mkNewNote "Algebra" (Some (File.mk "algebra.pdf")))
              (ContentManagement.mkNewVideo "" "") in
  let w := sample_world (Authenticated "u-alice") in
  let full := mkWorld (Authenticated "u-alice") sample_db [] [] "n-new" 10%N "k3x9q2"
                      (Some (storage_error "Payload too large"))
                      "https://project.supabase.co" [] String.leb in
  w_requests (world_after ContentManagement.handleAddNote st w)
  = [ReqUpload "pdfs/k3x9q2.pdf"; ReqInsert "notes"]
  /\ w_console (world_after ContentManagement.handleAddNote st w)
     = [("Error adding note:", infinite_recursion "users")]
  /\ w_requests (world_after ContentManagement.handleAddNote st full)
     = [ReqUpload "pdfs/k3x9q2.pdf"]
  /\ w_console (world_after ContentManagement.handleAddNote st full)
     = [("Error adding note:", storage_error "Payload too large")].
Proof.
  intros st w full.
  destruct (refused_note_leaves_file_behind st w (File.mk "algebra.pdf") "u-alice"
              eq_refl eq_refl eq_refl) as (_ & H1 & _).
  destruct (refused_note_leaves_file_behind st full (File.mk "algebra.pdf") "u-alice"
              eq_refl eq_refl eq_refl) as (H2 & _).
  destruct (H1 eq_refl) as [R1 C1].
  destruct (H2 _ eq_refl) as [R2 C2].
  split; [exact R1|]. split; [exact C1|]. split; [exact R2 | exact C2].
Defined.

(** ** The name a file is stored under *)

Lemma split_not_empty (sep : ascii) (s : string) : JS.split sep s <> [].
Proof.
  destruct s as [|c s]; simpl; [discriminate|].
  destruct (Ascii.eqb c sep); [discriminate|]. now destruct (JS.split sep s).
Qed.

Lemma join_cons (sep : ascii) (h : string) (t : list string) :
  t <> [] -> join sep (h :: t) = (h ++ String sep (join sep t))%string.
Proof. destruct t; [congruence | reflexivity]. Qed.

(** Splitting loses nothing: joining the parts gives the string back. *)
Lemma join_split (sep : ascii) (s : string) : join sep (JS.split sep s) = s.
Proof.
  induction s as [|c s IH]; [reflexivity|]. simpl.
  destruct (Ascii.eqb c sep) eqn:E.
  - apply Ascii.eqb_eq in E. subst c.
    rewrite join_cons by apply split_not_empty. simpl. now rewrite IH.
  - pose proof (split_not_empty sep s) as Hne.
    destruct (JS.split sep s) as [|h t]; [congruence|].
    destruct t as [|h' t'].
    + simpl in *. now rewrite IH.
    + rewrite join_cons by discriminate. rewrite join_cons in IH by discriminate.
      cbn [append]. now rewrite IH.
Qed.

Lemma split_without_separator (sep : ascii) (s : string) :
  has_char sep s = false -> JS.split sep s = [s].
Proof.
  induction s as [|c s IH]; [reflexivity|]. simpl. intros H.
  apply orb_false_iff in H as [Hc Hs]. now rewrite Hc, (IH Hs).
Qed.

Lemma split_parts_without_separator (sep : ascii) (s : string) :
  Forall (fun part => has_char sep part = false) (JS.split sep s).
Proof.
  induction s as [|c s IH]; simpl; [repeat constructor|].
  destruct (Ascii.eqb c sep) eqn:E.
  - constructor; [reflexivity | exact IH].
  - destruct (JS.split sep s) as [|h t]; [repeat constructor; simpl; now rewrite E|].
    inversion IH as [|? ? Hh Ht]; subst. constructor; [|exact Ht].
    simpl. now rewrite E, Hh.
Qed.

Lemma append_middle (a b x : string) (c : ascii) :
  ((a ++ String c b) ++ x = a ++ String c (b ++ x))%string.
Proof. induction a as [|d a IH]; simpl; [reflexivity|]. now rewrite IH. Qed.

Lemma join_ends_with_last (sep : ascii) (l : list string) :
  l <> [] ->
  join sep l = last l EmptyString
  \/ exists stem, join sep l = (stem ++ String sep (last l EmptyString))%string.
Proof.
  induction l as [|h t IH]; [congruence|]. intros _.
  destruct t as [|h' t']; [now left|]. right.
  rewrite join_cons by discriminate.
  change (last (h :: h' :: t') EmptyString) with (last (h' :: t') EmptyString).
  destruct (IH ltac:(discriminate)) as [E|(stem & E)]; rewrite E.
  - now exists h.
  - exists (h ++ String sep stem)%string. now rewrite append_middle.
Qed.

(** [handleFileUpload] sends one upload, to ["pdfs/<random>.<ext>"], where
    [<ext>] is what follows the last dot of the file name: it contains no
    dot, and it is the whole name when the name has no dot. *)
Theorem upload_goes_to_extension_of_name (f : File.t) (st : ContentManagement.State)
  (w : World) :
  let ext := JS.pop (JS.split "." (File.name f)) in
  w_requests (snd (ContentManagement.handleFileUpload f st w))
  = w_requests w ++ [ReqUpload ("pdfs/" ++ w_random w ++ "." ++ ext)%string]
  /\ has_char "." ext = false
  /\ (File.name f = ext \/ exists stem, File.name f = (stem ++ "." ++ ext)%string)
  /\ (has_char "." (File.name f) = false -> ext = File.name f).
Proof.
  intros ext. split; [|split; [|split]].
  - unfold ContentManagement.handleFileUpload, bind, ask, ContentManagement.upload; simpl.
    now destruct (w_upload_error w).
  - unfold ext, JS.pop.
    pose proof (split_parts_without_separator "." (File.name f)) as Hall.
    pose proof (split_not_empty "." (File.name f)) as Hne.
    induction (JS.split "." (File.name f)) as [|h t IH]; [congruence|].
    inversion Hall as [|? ? Hh Ht]; subst.
    destruct t as [|h' t']; [exact Hh|]. apply IH; [exact Ht | discriminate].
  - pose proof (join_ends_with_last "." _ (split_not_empty "." (File.name f))) as H.
    rewrite join_split in H. exact H.
  - intros Hno. unfold ext. now rewrite split_without_separator.
Qed.

Lemma upload_goes_to_extension_of_name_witness :
  JS.pop (JS.split "." "README") = "README"%string
  /\ w_requests (snd (ContentManagement.handleFileUpload (File.mk "notes.final.pdf")
                        ContentManagement.initial (sample_world (Authenticated "u-alice"))))
     = [ReqUpload "pdfs/k3x9q2.pdf"].
Proof.
  split.
  - apply (proj2 (proj2 (proj2 (upload_goes_to_extension_of_name
                                  (File.mk "README") ContentManagement.initial
                                  (sample_world (Authenticated "u-alice")))))).
    reflexivity.
  - apply (proj1 (upload_goes_to_extension_of_name
                    (File.mk "notes.final.pdf") ContentManagement.initial
                    (sample_world (Authenticated "u-alice")))).
Defined.


(** ** Addresses built from an id *)

Lemma skip_without_y (p s : string) :
  has_char "y" p = false -> getYouTubeVideoId (p ++ s) = getYouTubeVideoId s.
Proof.
  induction p as [|c p IH]; [reflexivity|]. simpl. intros H.
  apply orb_false_iff in H as [Hc Hp].
  change (String c (p ++ s)) with (String c (p ++ s)%string).
  rewrite getYouTubeVideoId_step.
  unfold after_marker_here, marker_watch, marker_short. cbn [strip_prefix].
  rewrite (Ascii.eqb_sym "y" c), Hc. now apply IH.
Qed.

Lemma id_after_marker (s rest : string) :
  after_marker_here s = Some rest -> up_to_delimiter rest <> EmptyString ->
  getYouTubeVideoId s = Some (up_to_delimiter rest).
Proof.
  intros Hm Hne. destruct s as [|c s]; [discriminate|].
  rewrite getYouTubeVideoId_step, Hm.
  destruct (String.eqb (up_to_delimiter rest) "") eqn:E; [|reflexivity].
  apply String.eqb_eq in E. contradiction.
Qed.

Lemma up_to_delimiter_app (id tail : string) :
  up_to_delimiter id = id ->
  up_to_delimiter (id ++ tail) = (id ++ up_to_delimiter tail)%string.
Proof.
  induction id as [|c id IH]; [reflexivity|]. simpl.
  destruct (is_delimiter c); [discriminate|]. intros [= H]. now rewrite (IH H).
Qed.

Lemma append_empty (s : string) : (s ++ "")%string = s.
Proof. induction s as [|c s IH]; simpl; [reflexivity|]. now rewrite IH. Qed.

(** An address built from an id gives the id back: for a non-empty [id]
    without ['&'], newline, ['?'] or ['#'], and a rest that is empty or
    starts with one of them, [getYouTubeVideoId] returns [id] from both
    forms of address, whatever stands in front of the marker as long as it
    has no ['y'] (as in [https://www.] or [https://m.]). *)
Theorem video_id_round_trip (pre id tail : string) :
  has_char "y" pre = false ->
  id <> EmptyString -> up_to_delimiter id = id -> up_to_delimiter tail = EmptyString ->
  getYouTubeVideoId (pre ++ "youtube.com/watch?v=" ++ id ++ tail) = Some id
  /\ getYouTubeVideoId (pre ++ "youtu.be/" ++ id ++ tail) = Some id
  /\ thumbnail (pre ++ "youtube.com/watch?v=" ++ id ++ tail)
     = Some ("https://img.youtube.com/vi/" ++ id ++ "/maxresdefault.jpg")%string.
Proof.
  intros Hpre Hne Hid Htail.
  assert (Hup : up_to_delimiter (id ++ tail) = id)
    by (now rewrite up_to_delimiter_app, Htail, append_empty).
  assert (Hw : getYouTubeVideoId (pre ++ "youtube.com/watch?v=" ++ id ++ tail) = Some id).
  { rewrite skip_without_y by exact Hpre.
    rewrite <- Hup at 2. apply id_after_marker; [|now rewrite Hup].
    unfold after_marker_here. change "youtube.com/watch?v="%string with marker_watch.
    now rewrite (strip_prefix_of_app marker_watch (id ++ tail)). }
  split; [exact Hw|]. split.
  - rewrite skip_without_y by exact Hpre.
    rewrite <- Hup at 2. apply id_after_marker; [|now rewrite Hup].
    unfold after_marker_here.
    change (strip_prefix marker_watch ("youtu.be/" ++ id ++ tail)) with (@None string).
    apply (strip_prefix_of_app marker_short (id ++ tail)).
  - unfold thumbnail, JS.truthy. rewrite Hw.
    destruct (String.eqb id "") eqn:E; [|reflexivity].
    apply String.eqb_eq in E. contradiction.
Qed.

Lemma video_id_round_trip_witness :
  getYouTubeVideoId "https://www.youtube.com/watch?v=fNk_zzaMoSs&list=PL1" = Some "fNk_zzaMoSs"%string
  /\ getYouTubeVideoId "https://www.youtu.be/fNk_zzaMoSs&list=PL1" = Some "fNk_zzaMoSs"%string
  /\ thumbnail "https://www.youtube.com/watch?v=fNk_zzaMoSs&list=PL1"
     = Some "https://img.youtube.com/vi/fNk_zzaMoSs/maxresdefault.jpg"%string.
Proof.
  apply (video_id_round_trip "https://www." "fNk_zzaMoSs" "&list=PL1");
    [reflexivity | discriminate | reflexivity | reflexivity].
Defined.


(** ** The sign-in form *)

(** [handleSubmit] does nothing for an empty address.  Otherwise, whatever
    [signInWithEmail] does, the handler completes normally with the
    indicator off again, and the message tells how the call ended: the
    confirmation when it returned, the error text, with the error on the
    console, when it threw. *)
Theorem login_reports_outcome (signInWithEmail : string -> M Login.State unit)
  (st : Login.State) (w : World) :
  (JS.truthy (Login.email st) = false ->
   Login.handleSubmit signInWithEmail st w = (Normal tt, st, w))
  /\ (JS.truthy (Login.email st) = true ->
      let st' := state_after (Login.handleSubmit signInWithEmail) st w in
      let w' := world_after (Login.handleSubmit signInWithEmail) st w in
      settle (Login.handleSubmit signInWithEmail) st w = Fulfilled
      /\ Login.loading st' = false
      /\ match signInWithEmail (Login.email st) (Login.mkState (Login.email st) true "") w with
         | (Normal _, _, w1) =>
             Login.message st' = "Check your email for the magic link!"%string /\ w' = w1
         | (Thrown e, _, w1) =>
             Login.message st' = "Error sending magic link. Please try again."%string
             /\ w' = with_console w1 "Error:" e
         end).
Proof.
  split.
  - intros H. unfold Login.handleSubmit, bind, getState. now rewrite H.
  - intros H st' w'. subst st' w'.
    unfold settle, state_after, world_after, Login.handleSubmit, bind, getState.
    rewrite H. simpl.
    unfold finally, try_catch, bind, Login.setLoading, Login.setMessage, setState,
      console_error; simpl.
    destruct (signInWithEmail (Login.email st) _ w) as [[[[]|e] s1] w1]; simpl;
      repeat split.
Qed.

Lemma login_reports_outcome_witness :
  let st := Login.mkState "bob@example.com" false "" in
  let w := sample_world Anon in
  let signIn := fun _ : string => @throw Login.State unit (storage_error "rate limit") in
  settle (Login.handleSubmit signIn) st w = Fulfilled
  /\ state_after (Login.handleSubmit signIn) st w
     = Login.mkState "bob@example.com" false "Error sending magic link. Please try again."
  /\ w_console (world_after (Login.handleSubmit signIn) st w)
     = [("Error:", storage_error "rate limit")].
Proof.
  intros st w signIn.
  destruct (proj2 (login_reports_outcome signIn st w) eq_refl) as (H1 & H2 & H3).
  split; [exact H1|]. split; reflexivity.
Defined.


(** ** The counts on the dashboard *)

Section CountBySubject.

Variable R : Type.
Variable key : R -> uuid.

Lemma one_subject_per_key (subs : list Subject.t) (k : uuid) :
  distinct (map Subject.id subs) = true ->
  existsb (fun s => String.eqb (Subject.id s) k) subs = true ->
  list_sum (map (fun s => if String.eqb k (Subject.id s) then 1 else 0) subs) = 1.
Proof.
  induction subs as [|s subs IH]; simpl; [discriminate|].
  intros Hd Hex. apply andb_true_iff in Hd as [Hs Hl]. apply negb_true_iff in Hs.
  rewrite (String.eqb_sym k (Subject.id s)).
  destruct (String.eqb (Subject.id s) k) eqn:E.
  - apply String.eqb_eq in E. subst k. simpl. apply (f_equal S).
    clear -Hs. induction subs as [|x subs IH]; simpl in *; [reflexivity|].
    apply orb_false_iff in Hs as [Hx Hs]. now rewrite Hx, IH.
  - simpl in Hex. now apply IH.
Qed.

Lemma list_sum_add {A} (f g : A -> nat) (l : list A) :
  list_sum (map (fun a => f a + g a) l) = list_sum (map f l) + list_sum (map g l).
Proof. induction l as [|a l IH]; simpl; [reflexivity|]. rewrite IH. lia. Qed.

Lemma counted_by_subject (subs : list Subject.t) (rows : list R) :
  distinct (map Subject.id subs) = true ->
  forallb (fun r => existsb (fun s => String.eqb (Subject.id s) (key r)) subs) rows = true ->
  list_sum (map (fun s => List.length
                            (filter (fun r => String.eqb (key r) (Subject.id s)) rows))
                subs)
  = List.length rows.
Proof.
  intros Hd. induction rows as [|r rows IH]; simpl; intros Hall.
  - induction subs as [|s subs IHs]; [reflexivity|]. simpl in *.
    apply andb_true_iff in Hd as [_ Hd]. now apply IHs.
  - apply andb_true_iff in Hall as [Hr Hrows].
    rewrite (map_ext _ (fun s => (if String.eqb (key r) (Subject.id s) then 1 else 0)
                                 + List.length
                                     (filter (fun r => String.eqb (key r) (Subject.id s))
                                             rows)))
      by (intros s; now destruct (String.eqb (key r) (Subject.id s))).
    now rewrite list_sum_add, (one_subject_per_key subs (key r) Hd Hr), (IH Hrows).
Qed.

End CountBySubject.

(** On the dashboard every note and every video is counted under exactly
    one subject: when the subjects on the page have distinct ids and
    include the subject of every row, the counts of the cards add up to the
    number of notes and of videos. *)
Theorem every_row_is_counted_once (user : option User.t) (st : Dashboard.State) :
  Dashboard.loading st = false -> Dashboard.user_access user = true ->
  distinct (map Subject.id (Dashboard.subjects st)) = true ->
  forallb (fun n => existsb (fun s => String.eqb (Subject.id s) (Note.subject_id (fst n)))
                            (Dashboard.subjects st)) (Dashboard.notes st) = true ->
  forallb (fun v => existsb (fun s => String.eqb (Subject.id s) (Video.subject_id (fst v)))
                            (Dashboard.subjects st)) (Dashboard.videos st) = true ->
  counted_notes (Dashboard.render user st) = List.length (Dashboard.notes st)
  /\ counted_videos (Dashboard.render user st) = List.length (Dashboard.videos st).
Proof.
  intros Hl Ha Hd Hn Hv. unfold Dashboard.render. rewrite Hl, Ha. simpl.
  rewrite !map_map. simpl. split.
  - now apply (counted_by_subject _ (fun n => Note.subject_id (fst n))).
  - now apply (counted_by_subject _ (fun v => Video.subject_id (fst v))).
Qed.
Lemma every_row_is_counted_once_witness :
  counted_notes (Dashboard.render (Some alice) sample_page) = 2
  /\ counted_videos (Dashboard.render (Some alice) sample_page) = 1.
Proof.
  apply (every_row_is_counted_once (Some alice) sample_page); reflexivity.
Defined.

(** ** The untouched form *)

(** Pressing "Add Subject" and then "Save" without typing, or "Save" after
    "Cancel", sends nothing and writes nothing: the guard of [handleSave]
    stops both. *)
Theorem untouched_form_saves_nothing (st : SubjectManagement.State) (w : World) :
  let added := state_after SubjectEditing.startAdding st w in
  let cancelled := state_after SubjectEditing.cancelEditing st w in
  world_after SubjectManagement.handleSave added w = w
  /\ state_after SubjectManagement.handleSave added w = added
  /\ SubjectManagement.isAdding added = true
  /\ world_after SubjectManagement.handleSave cancelled w = w
  /\ state_after SubjectManagement.handleSave cancelled w = cancelled.
Proof. repeat split. Qed.

